(** * cMonkey cluster membership (membership.py)

    A shallow embedding of the membership engine of cMonkey: the two
    membership stores [ClusterMembership] (dictionaries of sets) and
    [OrigMembership] (fixed-width slot arrays), the membership updater, the
    density fallback and the post-adjustment pass, followed by the
    properties of the design document that are checked against them.

    Conventions of the embedding:
    - a Python [dict] is a [gmap], a Python [set] a [gset], an
      [array.array('i')] a [list Z] whose stores are range checked;
    - a method that mutates [self] is a computation over the store that
      either returns or raises, and in both cases leaves a store behind;
      a bare [except:] is [try_except];
    - row and column names are strings, cluster numbers are integers, the
      counts of the configuration are natural numbers;
    - scores are exact rationals; where numpy tests [isfinite], a score is
      an [option Q] with [None] for NaN and the infinities;
    - the draws of [random.uniform] are an explicit input;
    - [datamatrix] and [util] are not part of the sources: a [DataMatrix]
      is seen through its accessors, and [util.order_fast], [util.density],
      [math.exp] and [DataMatrix.quantile] are parameters. *)

From Stdlib Require Import ZArith QArith Qminmax Lia Lqa.
From stdpp Require Import base option list sorting gmap sets strings pretty numbers.

Open Scope Z_scope.

Set Warnings "-clear-no-such-hyp".

(** ** Exceptions and computations over a store *)

Inductive exn :=
| KeyError
| ValueError
| IndexError
| OverflowError
| NameError
| LimitExceeded.   (* raise Exception("... exceeded clusters/row limit ...") *)

Inductive outcome (S A : Type) :=
| Returns (a : A) (s : S)
| Raises (e : exn) (s : S).
Arguments Returns {S A} a s.
Arguments Raises {S A} e s.

Definition final {S A} (o : outcome S A) : S :=
  match o with Returns _ s => s | Raises _ s => s end.

Definition value {S A} (o : outcome S A) : exn + A :=
  match o with Returns a _ => inr a | Raises e _ => inl e end.

Definition returned {S A} (o : outcome S A) : option A :=
  match o with Returns a _ => Some a | Raises _ _ => None end.

Definition M (S A : Type) : Type := S → outcome S A.

Definition ret {S A} (a : A) : M S A := λ s, Returns a s.
Definition raise {S A} (e : exn) : M S A := λ s, Raises e s.
Definition bind {S A B} (c : M S A) (k : A → M S B) : M S B :=
  λ s, match c s with
       | Returns a s' => k a s'
       | Raises e s' => Raises e s'
       end.
Definition get {S} : M S S := λ s, Returns s s.
Definition put {S} (s : S) : M S unit := λ _, Returns tt s.
(* try: body / except: handler -- the handler starts from the store the
   body left behind *)
Definition try_except {S A} (body : M S A) (handler : M S A) : M S A :=
  λ s, match body s with
       | Returns a s' => Returns a s'
       | Raises _ s' => handler s'
       end.

Declare Scope py_scope.
Delimit Scope py_scope with py.
Notation "x <~ c ; k" := (bind c (λ x, k))
  (at level 20, c at level 100, k at level 200, only parsing) : py_scope.
Open Scope py_scope.

(** ** Scores

    Scores are exact rationals.  [DataMatrix] is defined in datamatrix.py,
    which is not part of these sources; it is seen through the accessors the
    membership code uses: the list of row names, the number of columns, and
    the cell [values[row_indexes([row])[0]][cluster - 1]] addressed by row
    name and (1-based) cluster number. *)

Record DataMatrix (A : Type) := {
  row_names : list string;
  num_columns : nat;
  cell : string → Z → A
}.
Arguments row_names {A} _.
Arguments num_columns {A} _.
Arguments cell {A} _ _ _.

(* row_values(row) *)
Definition row_values {A} (m : DataMatrix A) (row : string) : list A :=
  map (λ k, cell m row (Z.of_nat (S k))) (seq 0 (num_columns m)).

(* Python's comparison of (score, cluster) tuples *)
Definition pair_ltb (x y : Q * Z) : bool :=
  match (x.1 ?= y.1)%Q with
  | Lt => true
  | Gt => false
  | Eq => x.2 <? y.2
  end.

Fixpoint insert_desc (x : Q * Z) (l : list (Q * Z)) : list (Q * Z) :=
  match l with
  | [] => [x]
  | y :: l' => if pair_ltb x y then y :: insert_desc x l' else x :: l
  end.

(* sorted(l, reverse=True) *)
Definition sorted_reverse (l : list (Q * Z)) : list (Q * Z) :=
  foldr insert_desc [] l.

(* x > 0 on scores *)
Definition Qpositive (x : Q) : bool :=
  match (x ?= 0)%Q with Gt => true | _ => false end.

(* sorted([(compval - values[index][c - 1], c) for c in current_clusters],
          reverse=True) in the replace_delta_*_member functions *)
Definition deltas_for (scores : DataMatrix Q) (name : string) (cluster : Z)
    (current_clusters : gset Z) : list (Q * Z) :=
  let compval := cell scores name cluster in
  sorted_reverse
    (map (λ c, ((compval - cell scores name c)%Q, c)) (elements current_clusters)).

(** ** Configuration (config_params) *)

Record Config := {
  num_clusters : nat;          (* 'num_clusters' *)
  clusters_per_row : nat;      (* 'memb.clusters_per_row' *)
  clusters_per_col : nat;      (* 'memb.clusters_per_col' *)
  prob_row_change : Q;         (* 'memb.prob_row_change' *)
  prob_col_change : Q;         (* 'memb.prob_col_change' *)
  max_changes_per_row : nat;   (* 'memb.max_changes_per_row' *)
  max_changes_per_col : nat    (* 'memb.max_changes_per_col' *)
}.

(** ** ClusterMembership: dictionaries of sets *)

Module CM.

Record t := {
  config_params : Config;
  row_is_member_of : gmap string (gset Z);
  column_is_member_of : gmap string (gset Z);
  cluster_row_members : gmap Z (gset string);
  cluster_column_members : gmap Z (gset string)
}.

Definition set_row_is_member_of (f : gmap string (gset Z)) (m : t) : t :=
  {| config_params := config_params m;
     row_is_member_of := f;
     column_is_member_of := column_is_member_of m;
     cluster_row_members := cluster_row_members m;
     cluster_column_members := cluster_column_members m |}.

Definition set_cluster_row_members (f : gmap Z (gset string)) (m : t) : t :=
  {| config_params := config_params m;
     row_is_member_of := row_is_member_of m;
     column_is_member_of := column_is_member_of m;
     cluster_row_members := f;
     cluster_column_members := cluster_column_members m |}.

Definition set_column_is_member_of (f : gmap string (gset Z)) (m : t) : t :=
  {| config_params := config_params m;
     row_is_member_of := row_is_member_of m;
     column_is_member_of := f;
     cluster_row_members := cluster_row_members m;
     cluster_column_members := cluster_column_members m |}.

Definition set_cluster_column_members (f : gmap Z (gset string)) (m : t) : t :=
  {| config_params := config_params m;
     row_is_member_of := row_is_member_of m;
     column_is_member_of := column_is_member_of m;
     cluster_row_members := cluster_row_members m;
     cluster_column_members := f |}.

(* create_cluster_to_names_map: from a name->clusters dictionary build the
   cluster->names dictionary *)
Definition create_cluster_to_names_map (name_to_cluster_map : gmap string (gset Z))
  : gmap Z (gset string) :=
  map_fold (λ name clusters result,
      set_fold (λ cluster result,
          let result := match result !! cluster with
                        | None => <[cluster := ∅]> result
                        | Some _ => result
                        end in
          <[cluster := default ∅ (result !! cluster) ∪ {[name]}]> result)
        result clusters)
    ∅ name_to_cluster_map.

(* __init__ *)
Definition init (row_is_member_of column_is_member_of : gmap string (gset Z))
    (config_params : Config) : t :=
  {| config_params := config_params;
     row_is_member_of := row_is_member_of;
     column_is_member_of := column_is_member_of;
     cluster_row_members := create_cluster_to_names_map row_is_member_of;
     cluster_column_members := create_cluster_to_names_map column_is_member_of |}.

Definition num_clusters_per_row (m : t) : nat := clusters_per_row (config_params m).
Definition num_clusters_per_column (m : t) : nat := clusters_per_col (config_params m).

(* self.__row_is_member_of.get(row_name, set()) *)
Definition clusters_for_row (m : t) (row_name : string) : gset Z :=
  default ∅ (row_is_member_of m !! row_name).
Definition num_clusters_for_row (m : t) (row_name : string) : nat :=
  size (clusters_for_row m row_name).
Definition clusters_for_column (m : t) (column_name : string) : gset Z :=
  default ∅ (column_is_member_of m !! column_name).
Definition num_clusters_for_column (m : t) (column_name : string) : nat :=
  size (clusters_for_column m column_name).
Definition rows_for_cluster (m : t) (cluster : Z) : gset string :=
  default ∅ (cluster_row_members m !! cluster).
Definition columns_for_cluster (m : t) (cluster : Z) : gset string :=
  default ∅ (cluster_column_members m !! cluster).
Definition num_row_members (m : t) (cluster : Z) : nat :=
  size (rows_for_cluster m cluster).
Definition num_column_members (m : t) (cluster : Z) : nat :=
  size (columns_for_cluster m cluster).

Definition is_row_in_cluster (m : t) (row : string) (cluster : Z) : bool :=
  bool_decide (row ∈ rows_for_cluster m cluster).
Definition is_column_in_cluster (m : t) (col : string) (cluster : Z) : bool :=
  bool_decide (col ∈ columns_for_cluster m cluster).

(* clusters_not_in_row: indexes the dictionary directly, so a missing row
   is a KeyError *)
Definition clusters_not_in_row (row : string) (clusters : list Z) : M t (list Z) :=
  m <~ get ;
  match row_is_member_of m !! row with
  | None => match clusters with [] => ret [] | _ => raise KeyError end
  | Some held => ret (filter (λ cluster, cluster ∉ held) clusters)
  end.
Definition clusters_not_in_column (column : string) (clusters : list Z)
  : M t (list Z) :=
  m <~ get ;
  match column_is_member_of m !! column with
  | None => match clusters with [] => ret [] | _ => raise KeyError end
  | Some held => ret (filter (λ cluster, cluster ∉ held) clusters)
  end.

(* __add_cluster_to_row: unchecked *)
Definition add_cluster_to_row_unchecked (row : string) (cluster : Z) : M t unit :=
  m <~ get ;
  _ <~ match row_is_member_of m !! row with
  | None => put (set_row_is_member_of (<[row := ∅]> (row_is_member_of m)) m)
  | Some _ => ret tt
  end ;
  m <~ get ;
  _ <~ match cluster_row_members m !! cluster with
  | None => put (set_cluster_row_members (<[cluster := ∅]> (cluster_row_members m)) m)
  | Some _ => ret tt
  end ;
  m <~ get ;
  match row_is_member_of m !! row, cluster_row_members m !! cluster with
  | Some clusters, Some rows =>
      let m := if decide (cluster ∉ clusters)
               then set_row_is_member_of
                      (<[row := clusters ∪ {[cluster]}]> (row_is_member_of m)) m
               else m in
      let m := if decide (row ∉ rows)
               then set_cluster_row_members
                      (<[cluster := rows ∪ {[row]}]> (cluster_row_members m)) m
               else m in
      put m
  | _, _ => raise KeyError
  end.

(* add_cluster_to_row: checked *)
Definition add_cluster_to_row (row : string) (cluster : Z) : M t unit :=
  m <~ get ;
  if decide (num_clusters_per_row m ≤ num_clusters_for_row m row)%nat
  then raise LimitExceeded
  else add_cluster_to_row_unchecked row cluster.

(* remove_cluster_from_row; set.remove raises KeyError on a missing element *)
Definition remove_cluster_from_row (row : string) (cluster : Z) : M t unit :=
  m <~ get ;
  _ <~ match row_is_member_of m !! row with
  | Some clusters =>
      if decide (cluster ∈ clusters)
      then put (set_row_is_member_of
                  (<[row := clusters ∖ {[cluster]}]> (row_is_member_of m)) m)
      else raise KeyError
  | None => ret tt
  end ;
  m <~ get ;
  match cluster_row_members m !! cluster with
  | Some rows =>
      if decide (row ∈ rows)
      then put (set_cluster_row_members
                  (<[cluster := rows ∖ {[row]}]> (cluster_row_members m)) m)
      else raise KeyError
  | None => ret tt
  end.

Definition replace_row_cluster (row : string) (cluster replacement : Z) : M t unit :=
  m <~ get ;
  if bool_decide (cluster ≠ replacement) && negb (is_row_in_cluster m row replacement)
  then _ <~ remove_cluster_from_row row cluster ; add_cluster_to_row row replacement
  else ret tt.


(* __add_cluster_to_column: unchecked *)
Definition add_cluster_to_column_unchecked (column : string) (cluster : Z)
  : M t unit :=
  m <~ get ;
  _ <~ match column_is_member_of m !! column with
       | None => put (set_column_is_member_of
                        (<[column := ∅]> (column_is_member_of m)) m)
       | Some _ => ret tt
       end ;
  m <~ get ;
  _ <~ match cluster_column_members m !! cluster with
       | None => put (set_cluster_column_members
                        (<[cluster := ∅]> (cluster_column_members m)) m)
       | Some _ => ret tt
       end ;
  m <~ get ;
  match column_is_member_of m !! column, cluster_column_members m !! cluster with
  | Some clusters, Some columns =>
      let m := if decide (cluster ∉ clusters)
               then set_column_is_member_of
                      (<[column := clusters ∪ {[cluster]}]> (column_is_member_of m)) m
               else m in
      let m := if decide (column ∉ columns)
               then set_cluster_column_members
                      (<[cluster := columns ∪ {[column]}]> (cluster_column_members m)) m
               else m in
      put m
  | _, _ => raise KeyError
  end.

(* add_cluster_to_column: checked *)
Definition add_cluster_to_column (column : string) (cluster : Z) : M t unit :=
  m <~ get ;
  if decide (num_clusters_per_column m ≤ num_clusters_for_column m column)%nat
  then raise LimitExceeded
  else add_cluster_to_column_unchecked column cluster.

(* remove_cluster_from_column: the cluster's column set is updated first *)
Definition remove_cluster_from_column (column : string) (cluster : Z) : M t unit :=
  m <~ get ;
  _ <~ match cluster_column_members m !! cluster with
       | Some columns =>
           if decide (column ∈ columns)
           then put (set_cluster_column_members
                       (<[cluster := columns ∖ {[column]}]> (cluster_column_members m)) m)
           else raise KeyError
       | None => ret tt
       end ;
  m <~ get ;
  match column_is_member_of m !! column with
  | Some clusters =>
      if decide (cluster ∈ clusters)
      then put (set_column_is_member_of
                  (<[column := clusters ∖ {[cluster]}]> (column_is_member_of m)) m)
      else raise KeyError
  | None => ret tt
  end.

Definition replace_column_cluster (column : string) (cluster replacement : Z)
  : M t unit :=
  m <~ get ;
  if bool_decide (replacement ≠ cluster)
     && negb (is_column_in_cluster m column replacement)
  then _ <~ remove_cluster_from_column column cluster ;
       add_cluster_to_column column replacement
  else ret tt.

Definition replace_delta_row_member (row : string) (cluster : Z)
    (rd_scores : DataMatrix Q) : M t Z :=
  m <~ get ;
  match row_is_member_of m !! row with
  | None => raise KeyError
  | Some current_clusters =>
      match deltas_for rd_scores row cluster current_clusters with
      | (d, c) :: _ =>
          if Qpositive d
          then _ <~ replace_row_cluster row c cluster ; ret c
          else ret 0
      | [] => ret 0
      end
  end.

Definition replace_delta_column_member (col : string) (cluster : Z)
    (cd_scores : DataMatrix Q) : M t Z :=
  m <~ get ;
  match column_is_member_of m !! col with
  | None => raise KeyError
  | Some current_clusters =>
      match deltas_for cd_scores col cluster current_clusters with
      | (d, c) :: _ =>
          if Qpositive d
          then _ <~ replace_column_cluster col c cluster ; ret c
          else ret 0
      | [] => ret 0
      end
  end.

(** The checkpoint shelf: the entries the membership reads and writes. *)
Record Shelf := {
  shelf_iteration : option Z;                                (* 'iteration' *)
  shelf_row_is_member_of : option (gmap string (gset Z));    (* KEY_ROW_IS_MEMBER_OF *)
  shelf_col_is_member_of : option (gmap string (gset Z))     (* KEY_COL_IS_MEMBER_OF *)
}.

(* store_checkpoint_data: the log line reads shelf['iteration'] first *)
Definition store_checkpoint_data (m : t) (shelf : Shelf) : exn + Shelf :=
  match shelf_iteration shelf with
  | None => inl KeyError
  | Some it =>
      inr {| shelf_iteration := Some it;
             shelf_row_is_member_of := Some (row_is_member_of m);
             shelf_col_is_member_of := Some (column_is_member_of m) |}
  end.

Definition restore_from_checkpoint (config_params : Config) (shelf : Shelf)
  : exn + t :=
  match shelf_row_is_member_of shelf, shelf_col_is_member_of shelf with
  | Some row_is_member_of, Some col_is_member_of =>
      inr (init row_is_member_of col_is_member_of config_params)
  | _, _ => inl KeyError
  end.

End CM.

(** ** OrigMembership: fixed-width slot arrays *)

(* the range of array.array('i') items *)
Definition int_ok (x : Z) : bool := (-2147483648 <=? x) && (x <? 2147483648).

(* Python index normalisation for a sequence of length [len] *)
Definition py_index (len : nat) (i : Z) : option nat :=
  if 0 <=? i
  then (if i <? Z.of_nat len then Some (Z.to_nat i) else None)
  else (if - Z.of_nat len <=? i then Some (Z.to_nat (Z.of_nat len + i)) else None).

(* array.index(x): position of the first occurrence *)
Definition index_of (x : Z) (l : list Z) : option nat :=
  fst <$> list_find (λ y, y = x) l.

Module OM.

Record t := {
  config_params : Config;
  row_memb : gmap string (list Z);
  col_memb : gmap string (list Z);
  cluster_rows : gmap Z (gset string);
  cluster_cols : gmap Z (gset string)
}.

Definition set_row_memb (f : gmap string (list Z)) (m : t) : t :=
  {| config_params := config_params m;
     row_memb := f;
     col_memb := col_memb m;
     cluster_rows := cluster_rows m;
     cluster_cols := cluster_cols m |}.

Definition set_col_memb (f : gmap string (list Z)) (m : t) : t :=
  {| config_params := config_params m;
     row_memb := row_memb m;
     col_memb := f;
     cluster_rows := cluster_rows m;
     cluster_cols := cluster_cols m |}.

Definition set_cluster_rows (f : gmap Z (gset string)) (m : t) : t :=
  {| config_params := config_params m;
     row_memb := row_memb m;
     col_memb := col_memb m;
     cluster_rows := f;
     cluster_cols := cluster_cols m |}.

Definition set_cluster_cols (f : gmap Z (gset string)) (m : t) : t :=
  {| config_params := config_params m;
     row_memb := row_memb m;
     col_memb := col_memb m;
     cluster_rows := cluster_rows m;
     cluster_cols := f |}.

(* cluster2names_map: only positive entries are clusters *)
Definition cluster2names_map (name2clusters : gmap string (list Z))
  : gmap Z (gset string) :=
  map_fold (λ name clusters result,
      foldl (λ result cluster,
          if decide (0 < cluster)
          then
            let result := match result !! cluster with
                          | None => <[cluster := ∅]> result
                          | Some _ => result
                          end in
            <[cluster := default ∅ (result !! cluster) ∪ {[name]}]> result
          else result)
        result clusters)
    ∅ name2clusters.

(* tmp = clusters[:num]; tmp.extend([0] * (num - len(tmp))) *)
Definition pad_slots (num : nat) (clusters : list Z) : list Z :=
  let tmp := take num clusters in
  tmp ++ replicate (num - length tmp) 0.

(* __init__ (the entries are taken to fit array.array('i')) *)
Definition init (row_is_member_of col_is_member_of : gmap string (list Z))
    (config_params : Config) : t :=
  let row_memb := pad_slots (clusters_per_row config_params) <$> row_is_member_of in
  let col_memb := pad_slots (clusters_per_col config_params) <$> col_is_member_of in
  {| config_params := config_params;
     row_memb := row_memb;
     col_memb := col_memb;
     cluster_rows := cluster2names_map row_memb;
     cluster_cols := cluster2names_map col_memb |}.

Definition num_clusters_per_row (m : t) : nat := clusters_per_row (config_params m).
Definition num_clusters_per_column (m : t) : nat := clusters_per_col (config_params m).

(* {m for m in slots if m > 0} *)
Definition clusters_of (slots : list Z) : gset Z :=
  list_to_set (filter (λ c, 0 < c) slots).

(* clusters_for_row: indexes row_memb directly *)
Definition clusters_for_row (row_name : string) : M t (gset Z) :=
  m <~ get ;
  match row_memb m !! row_name with
  | None => raise KeyError
  | Some slots => ret (clusters_of slots)
  end.
Definition num_clusters_for_row (row : string) : M t nat :=
  clusters <~ clusters_for_row row ; ret (size clusters).
Definition clusters_for_column (column_name : string) : M t (gset Z) :=
  m <~ get ;
  match col_memb m !! column_name with
  | None => raise KeyError
  | Some slots => ret (clusters_of slots)
  end.
Definition num_clusters_for_column (column : string) : M t nat :=
  clusters <~ clusters_for_column column ; ret (size clusters).

Definition rows_for_cluster (m : t) (cluster : Z) : gset string :=
  default ∅ (cluster_rows m !! cluster).
Definition columns_for_cluster (m : t) (cluster : Z) : gset string :=
  default ∅ (cluster_cols m !! cluster).
Definition num_row_members (m : t) (cluster : Z) : nat :=
  size (rows_for_cluster m cluster).
Definition num_column_members (m : t) (cluster : Z) : nat :=
  size (columns_for_cluster m cluster).

Definition clusters_not_in_row (row : string) (clusters : list Z) : M t (list Z) :=
  match clusters with
  | [] => ret []
  | _ => held <~ clusters_for_row row ;
         ret (filter (λ cluster, cluster ∉ held) clusters)
  end.
Definition clusters_not_in_column (col : string) (clusters : list Z)
  : M t (list Z) :=
  match clusters with
  | [] => ret []
  | _ => held <~ clusters_for_column col ;
         ret (filter (λ cluster, cluster ∉ held) clusters)
  end.

(* self.row_memb[row].index(0) *)
Definition first_free_slot_for_row (row : string) : M t nat :=
  m <~ get ;
  match row_memb m !! row with
  | None => raise KeyError
  | Some slots =>
      match index_of 0 slots with
      | None => raise ValueError
      | Some index => ret index
      end
  end.
Definition first_free_slot_for_column (col : string) : M t nat :=
  m <~ get ;
  match col_memb m !! col with
  | None => raise KeyError
  | Some slots =>
      match index_of 0 slots with
      | None => raise ValueError
      | Some index => ret index
      end
  end.

(* self.row_memb[row][index] = value *)
Definition store_row_slot (row : string) (index : Z) (value : Z) : M t unit :=
  m <~ get ;
  match row_memb m !! row with
  | None => raise KeyError
  | Some slots =>
      match py_index (length slots) index with
      | None => raise IndexError
      | Some i =>
          if int_ok value
          then put (set_row_memb (<[row := <[i := value]> slots]> (row_memb m)) m)
          else raise OverflowError
      end
  end.
Definition store_col_slot (col : string) (index : Z) (value : Z) : M t unit :=
  m <~ get ;
  match col_memb m !! col with
  | None => raise KeyError
  | Some slots =>
      match py_index (length slots) index with
      | None => raise IndexError
      | Some i =>
          if int_ok value
          then put (set_col_memb (<[col := <[i := value]> slots]> (col_memb m)) m)
          else raise OverflowError
      end
  end.

(* self.row_memb[row].append(value) *)
Definition append_row_slot (row : string) (value : Z) : M t unit :=
  m <~ get ;
  match row_memb m !! row with
  | None => raise KeyError
  | Some slots =>
      if int_ok value
      then put (set_row_memb (<[row := slots ++ [value]]> (row_memb m)) m)
      else raise OverflowError
  end.
Definition append_col_slot (col : string) (value : Z) : M t unit :=
  m <~ get ;
  match col_memb m !! col with
  | None => raise KeyError
  | Some slots =>
      if int_ok value
      then put (set_col_memb (<[col := slots ++ [value]]> (col_memb m)) m)
      else raise OverflowError
  end.

(* the local add_reverse of add_cluster_to_row *)
Definition add_reverse_row (cluster : Z) (row : string) : M t unit :=
  m <~ get ;
  match cluster_rows m !! cluster with
  | None => put (set_cluster_rows (<[cluster := {[row]}]> (cluster_rows m)) m)
  | Some rows => put (set_cluster_rows (<[cluster := rows ∪ {[row]}]> (cluster_rows m)) m)
  end.
Definition add_reverse_col (cluster : Z) (col : string) : M t unit :=
  m <~ get ;
  match cluster_cols m !! cluster with
  | None => put (set_cluster_cols (<[cluster := {[col]}]> (cluster_cols m)) m)
  | Some cols => put (set_cluster_cols (<[cluster := cols ∪ {[col]}]> (cluster_cols m)) m)
  end.

(* add_cluster_to_row: the bare except clause catches whatever the attempt
   to fill a free slot raises *)
Definition add_cluster_to_row (row : string) (cluster : Z) (force : bool)
  : M t unit :=
  try_except
    (index <~ first_free_slot_for_row row ;
     _ <~ store_row_slot row (Z.of_nat index) cluster ;
     add_reverse_row cluster row)
    (if force
     then _ <~ append_row_slot row cluster ; add_reverse_row cluster row
     else raise LimitExceeded).

Definition add_cluster_to_column (col : string) (cluster : Z) (force : bool)
  : M t unit :=
  try_except
    (index <~ first_free_slot_for_column col ;
     _ <~ store_col_slot col (Z.of_nat index) cluster ;
     add_reverse_col cluster col)
    (if force
     then _ <~ append_col_slot col cluster ; add_reverse_col cluster col
     else raise LimitExceeded).

(* self.cluster_rows[old].remove(row) *)
Definition remove_reverse_row (old : Z) (row : string) : M t unit :=
  m <~ get ;
  match cluster_rows m !! old with
  | None => raise KeyError
  | Some rows =>
      if decide (row ∈ rows)
      then put (set_cluster_rows (<[old := rows ∖ {[row]}]> (cluster_rows m)) m)
      else raise KeyError
  end.
Definition remove_reverse_col (old : Z) (col : string) : M t unit :=
  m <~ get ;
  match cluster_cols m !! old with
  | None => raise KeyError
  | Some cols =>
      if decide (col ∈ cols)
      then put (set_cluster_cols (<[old := cols ∖ {[col]}]> (cluster_cols m)) m)
      else raise KeyError
  end.

(* if new not in self.cluster_rows: self.cluster_rows[new] = set()
   self.cluster_rows[new].add(row) *)
Definition add_edge_row (new : Z) (row : string) : M t unit :=
  m <~ get ;
  _ <~ match cluster_rows m !! new with
       | None => put (set_cluster_rows (<[new := ∅]> (cluster_rows m)) m)
       | Some _ => ret tt
       end ;
  m <~ get ;
  match cluster_rows m !! new with
  | None => raise KeyError
  | Some rows => put (set_cluster_rows (<[new := rows ∪ {[row]}]> (cluster_rows m)) m)
  end.
Definition add_edge_col (new : Z) (col : string) : M t unit :=
  m <~ get ;
  _ <~ match cluster_cols m !! new with
       | None => put (set_cluster_cols (<[new := ∅]> (cluster_cols m)) m)
       | Some _ => ret tt
       end ;
  m <~ get ;
  match cluster_cols m !! new with
  | None => raise KeyError
  | Some cols => put (set_cluster_cols (<[new := cols ∪ {[col]}]> (cluster_cols m)) m)
  end.

(* replace_row_cluster: the slot is addressed by its index *)
Definition replace_row_cluster (row : string) (index : Z) (new : Z) : M t unit :=
  held <~ clusters_for_row row ;
  if decide (new ∉ held)
  then
    m <~ get ;
    match row_memb m !! row with
    | None => raise KeyError
    | Some slots =>
        match py_index (length slots) index with
        | None => raise IndexError
        | Some i =>
            let old := default 0 (slots !! i) in
            _ <~ store_row_slot row index new ;
            m <~ get ;
            _ <~ (if decide (old ∉ default [] (row_memb m !! row))
                  then remove_reverse_row old row
                  else ret tt) ;
            add_edge_row new row
        end
    end
  else ret tt.

(* replace_column_cluster: the slot is found from the old cluster *)
Definition replace_column_cluster (col : string) (old new : Z) : M t unit :=
  m <~ get ;
  match col_memb m !! col with
  | None => raise KeyError
  | Some slots =>
      match index_of old slots with
      | None => raise ValueError
      | Some index =>
          _ <~ store_col_slot col (Z.of_nat index) new ;
          m <~ get ;
          _ <~ (if decide (old ∉ default [] (col_memb m !! col))
                then remove_reverse_col old col
                else ret tt) ;
          add_edge_col new col
      end
  end.

Record Shelf := {
  shelf_iteration : option Z;                                (* 'iteration' *)
  shelf_row_is_member_of : option (gmap string (list Z));    (* KEY_ROW_IS_MEMBER_OF *)
  shelf_col_is_member_of : option (gmap string (list Z))     (* KEY_COL_IS_MEMBER_OF *)
}.

Definition store_checkpoint_data (m : t) (shelf : Shelf) : exn + Shelf :=
  match shelf_iteration shelf with
  | None => inl KeyError
  | Some it =>
      inr {| shelf_iteration := Some it;
             shelf_row_is_member_of := Some (row_memb m);
             shelf_col_is_member_of := Some (col_memb m) |}
  end.

Definition restore_from_checkpoint (config_params : Config) (shelf : Shelf)
  : exn + t :=
  match shelf_row_is_member_of shelf, shelf_col_is_member_of shelf with
  | Some row_is_member_of, Some col_is_member_of =>
      inr (init row_is_member_of col_is_member_of config_params)
  | _, _ => inl KeyError
  end.

End OM.

(** ** The membership interface used by the scoring helpers *)

Class Membership (T : Type) := {
  rows_for_cluster : T → Z → gset string;
  columns_for_cluster : T → Z → gset string
}.

#[export] Instance CM_Membership : Membership CM.t :=
  {| rows_for_cluster := CM.rows_for_cluster;
     columns_for_cluster := CM.columns_for_cluster |}.

#[export] Instance OM_Membership : Membership OM.t :=
  {| rows_for_cluster := OM.rows_for_cluster;
     columns_for_cluster := OM.columns_for_cluster |}.

(** ** Membership updater *)

(* seeing_change(prob); [u] is the value random.uniform(0.0, 1.0) yields *)
Definition seeing_change (prob : Q) (u : Q) : bool :=
  Qle_bool 1 prob || Qle_bool u prob.

(* sorted(l) on cluster numbers *)
Definition sorted_clusters (l : list Z) : list Z := merge_sort Z.le l.

(* get_best_clusters; util.order_fast is not part of these sources and is
   passed in *)
Definition get_best_clusters (order_fast : list Q → nat → list Z)
    (scores : DataMatrix Q) (n : nat) (sort : bool) : string → list Z :=
  λ row,
    if sort then sorted_clusters (order_fast (row_values scores row) n)
    else order_fast (row_values scores row) n.

(* for x in l: body(x) *)
Fixpoint for_each {S A} (l : list A) (body : A → M S unit) : M S unit :=
  match l with
  | [] => ret tt
  | x :: l' => _ <~ body x ; for_each l' body
  end.

(* for _ in range(n): clusters = step(clusters) *)
Fixpoint changes {S} (n : nat) (step : list Z → M S (list Z)) (clusters : list Z)
  : M S (list Z) :=
  match n with
  | O => ret clusters
  | S n' => clusters' <~ step clusters ; changes n' step clusters'
  end.

(* one pass of the body of "for _ in range(max_changes)" in update_for_rows;
   the result is the candidate list after the pass *)
Definition row_change (rd_scores : DataMatrix Q) (row : string) (clusters : list Z)
  : M CM.t (list Z) :=
  match clusters with
  | [] => ret []
  | c0 :: rest =>
      m <~ get ;
      if decide (CM.num_clusters_for_row m row < CM.num_clusters_per_row m)%nat
      then _ <~ CM.add_cluster_to_row row c0 ; ret rest
      else old <~ CM.replace_delta_row_member row c0 rd_scores ;
           if decide (old ≠ 0) then ret rest else ret clusters
  end.

Definition col_change (cd_scores : DataMatrix Q) (col : string) (clusters : list Z)
  : M CM.t (list Z) :=
  match clusters with
  | [] => ret []
  | c0 :: rest =>
      m <~ get ;
      if decide (CM.num_clusters_for_column m col < CM.num_clusters_per_column m)%nat
      then _ <~ CM.add_cluster_to_column col c0 ; ret rest
      else old <~ CM.replace_delta_column_member col c0 cd_scores ;
           if decide (old ≠ 0) then ret rest else ret clusters
  end.

(* the body of the loop over the rows in update_for_rows, for one row with
   its best clusters; [u] is the uniform sample the gate sees *)
Definition update_row (rd_scores : DataMatrix Q) (best : list Z) (max_changes : nat)
    (change_prob u : Q) (row : string) : M CM.t unit :=
  clusters <~ CM.clusters_not_in_row row best ;
  if seeing_change change_prob u
  then _ <~ changes max_changes (row_change rd_scores row) clusters ; ret tt
  else ret tt.

Definition update_col (cd_scores : DataMatrix Q) (best : list Z) (max_changes : nat)
    (change_prob u : Q) (col : string) : M CM.t unit :=
  clusters <~ CM.clusters_not_in_column col best ;
  if seeing_change change_prob u
  then _ <~ changes max_changes (col_change cd_scores col) clusters ; ret tt
  else ret tt.

(* update_for_rows; [draws index] is the uniform sample seen at row [index] *)
Definition update_for_rows (order_fast : list Q → nat → list Z)
    (rd_scores : DataMatrix Q) (draws : nat → Q) : M CM.t unit :=
  m <~ get ;
  let best_clusters :=
    get_best_clusters order_fast rd_scores (CM.num_clusters_per_row m) false in
  let max_changes := max_changes_per_row (CM.config_params m) in
  let change_prob := prob_row_change (CM.config_params m) in
  for_each (imap pair (row_names rd_scores)) (λ '(index, row),
    update_row rd_scores (best_clusters row) max_changes change_prob
               (draws index) row).

Definition update_for_cols (order_fast : list Q → nat → list Z)
    (cd_scores : DataMatrix Q) (draws : nat → Q) : M CM.t unit :=
  m <~ get ;
  let best_clusters :=
    get_best_clusters order_fast cd_scores (CM.num_clusters_per_column m) false in
  let max_changes := max_changes_per_col (CM.config_params m) in
  let change_prob := prob_col_change (CM.config_params m) in
  for_each (imap pair (row_names cd_scores)) (λ '(index, col),
    update_col cd_scores (best_clusters col) max_changes change_prob
               (draws index) col).

(** *** The updater of OrigMembership *)

(* a - b on numpy arrays of one dimension, with broadcasting of a
   one-element operand *)
Definition np_sub (a b : list Q) : option (list Q) :=
  if decide (length a = length b) then Some (zip_with Qminus a b)
  else match a, b with
       | [x], _ => Some (map (λ y, x - y)%Q b)
       | _, [y] => Some (map (λ x, x - y)%Q a)
       | _, _ => None
       end.

(* deltas.argmax(axis=0): the first position of the largest entry *)
Fixpoint argmax_from (best : Q) (best_idx idx : nat) (l : list Q) : nat :=
  match l with
  | [] => best_idx
  | x :: l' =>
      match (x ?= best)%Q with
      | Gt => argmax_from x idx (S idx) l'
      | _ => argmax_from best best_idx (S idx) l'
      end
  end.
Definition argmax (l : list Q) : nat :=
  match l with
  | [] => 0%nat
  | x :: l' => argmax_from x 0 1 l'
  end.

Definition replace_delta_row_member2 (row : string) (rm : list Z)
    (rd_scores : DataMatrix Q) : M OM.t unit :=
  m <~ get ;
  match OM.row_memb m !! row with
  | None => raise KeyError
  | Some slots =>
      match np_sub (map (cell rd_scores row) rm) (map (cell rd_scores row) slots) with
      | None => raise ValueError
      | Some deltas =>
          (* len(deltas[deltas != 0.0]) != 0 *)
          if existsb (λ d, negb (Qeq_bool d 0)) deltas
          then
            let maxidx := argmax deltas in
            match rm !! maxidx with
            | None => raise IndexError
            | Some new => OM.replace_row_cluster row (Z.of_nat maxidx) new
            end
          else ret tt
      end
  end.

(* one pass of the body of "for _ in range(max_changes)" in update_for_rows2 *)
Definition row_change2 (rd_scores : DataMatrix Q) (row : string) (clusters : list Z)
  : M OM.t unit :=
  match clusters with
  | [] => ret tt
  | _ =>
      try_except
        (free_slot <~ OM.first_free_slot_for_row row ;
         match clusters !! free_slot with
         | None => raise IndexError
         | Some take_cluster =>
             held <~ OM.clusters_for_row row ;
             if decide (take_cluster ∉ held)
             then OM.add_cluster_to_row row take_cluster false
             else ret tt
         end)
        (replace_delta_row_member2 row clusters rd_scores)
  end.

(* the body of the loop over the rows in update_for_rows2, for one row *)
Definition update_row2 (rd_scores : DataMatrix Q) (clusters : list Z)
    (max_changes : nat) (change_prob u : Q) (row : string) : M OM.t unit :=
  if seeing_change change_prob u
  then for_each (seq 0 max_changes) (λ _, row_change2 rd_scores row clusters)
  else ret tt.

Definition update_for_rows2 (order_fast : list Q → nat → list Z)
    (rd_scores : DataMatrix Q) (draws : nat → Q) : M OM.t unit :=
  m <~ get ;
  let best_clusters :=
    get_best_clusters order_fast rd_scores (OM.num_clusters_per_row m) true in
  let max_changes := max_changes_per_row (OM.config_params m) in
  let change_prob := prob_row_change (OM.config_params m) in
  for_each (imap pair (row_names rd_scores)) (λ '(index, row),
    update_row2 rd_scores (best_clusters row) max_changes change_prob
                (draws index) row).

Definition replace_delta_column_member2 (col : string) (cluster : Z)
    (cd_scores : DataMatrix Q) : M OM.t Z :=
  current_clusters <~ OM.clusters_for_column col ;
  match deltas_for cd_scores col cluster current_clusters with
  | (d, c) :: _ =>
      if Qpositive d
      then _ <~ OM.replace_column_cluster col c cluster ; ret c
      else ret 0
  | [] => ret 0
  end.

(* one pass of the body of "for c in range(max_changes)" in update_for_cols2;
   the call add_cluster_to_column(row, take_cluster) names [row], which is
   not bound in update_for_cols2 *)
Definition col_change2 (cd_scores : DataMatrix Q) (col : string) (clusters : list Z)
  : M OM.t unit :=
  match clusters with
  | [] => ret tt
  | c0 :: _ =>
      try_except
        (free_slot <~ OM.first_free_slot_for_column col ;
         match clusters !! free_slot with
         | None => raise IndexError
         | Some take_cluster =>
             held <~ OM.clusters_for_column col ;
             if decide (take_cluster ∉ held)
             then raise NameError
             else ret tt
         end)
        (_ <~ replace_delta_column_member2 col c0 cd_scores ; ret tt)
  end.

Definition update_for_cols2 (order_fast : list Q → nat → list Z)
    (cd_scores : DataMatrix Q) (draws : nat → Q) : M OM.t unit :=
  m <~ get ;
  let best_clusters :=
    get_best_clusters order_fast cd_scores (OM.num_clusters_per_column m) false in
  let max_changes := max_changes_per_col (OM.config_params m) in
  let change_prob := prob_col_change (OM.config_params m) in
  for_each (imap pair (row_names cd_scores)) (λ '(index, col),
    clusters <~ OM.clusters_not_in_column col (best_clusters col) ;
    if seeing_change change_prob (draws index)
    then for_each (seq 0 max_changes) (λ _, col_change2 cd_scores col clusters)
    else ret tt).

(** ** Density scores

    A raw score is [Some q] when finite and [None] when numpy reports it as
    not finite (NaN or an infinity).  [math.exp] and [util.density] are
    outside these sources and are passed in. *)




Section Density.
Context {T : Type} `{Membership T}.
Variable exp : Q → Q.
Variable density : list (option Q) → list (option Q) → Q → Q → Q → list Q.





End Density.

(** ** Post-adjustment *)

Definition MAX_ADJUST_TRIES : nat := 50.

(* sys.float_info.min: the smallest positive normalized double, 2^-1022 *)
Definition float_info_min : Q := 1 # (2 ^ 1022).

(* a > b on scores *)
Definition Qgtb (a b : Q) : bool :=
  match (a ?= b)%Q with Gt => true | _ => false end.
(* a < b on scores *)
Definition Qltb (a b : Q) : bool :=
  match (a ?= b)%Q with Lt => true | _ => false end.

(* the scan of max_row_in_column over the one-column submatrix *)
Fixpoint max_row_scan (sm_values : list Q) (row max_row : nat) (max_score : Q) : nat :=
  match sm_values with
  | [] => max_row
  | v :: rest =>
      if Qgtb v max_score
      then max_row_scan rest (S row) row v
      else max_row_scan rest (S row) max_row max_score
  end.

(* max_row_in_column(matrix, cluster - 1): the submatrix has the rows named
   by [wh], in that order *)
Definition max_row_in_column (matrix : DataMatrix Q) (cluster : Z) (wh : list string)
  : option string :=
  let sm_values := map (λ row, cell matrix row cluster) wh in
  wh !! max_row_scan sm_values 0 0 float_info_min.

(* wh.remove(x): drops the first occurrence *)
Fixpoint remove_first (x : string) (l : list string) : list string :=
  match l with
  | [] => []
  | y :: l' => if decide (y = x) then l' else y :: remove_first x l'
  end.


Section PostAdjust.
(* DataMatrix.quantile of the scores of a list of rows *)
Variable quantile : list Q → Q → Q.



(* [f(x) for x in l] with effects *)
Fixpoint collect {S A B} (l : list A) (f : A → M S B) : M S (list B) :=
  match l with
  | [] => ret []
  | x :: l' => y <~ f x ; ys <~ collect l' f ; ret (y :: ys)
  end.

End PostAdjust.

(** * Specification vocabulary and sample data *)

(** ** Consistency of the two stores *)

Ltac run := unfold bind, get, put, ret, raise, try_except; simpl.

Definition CM_rows_consistent (m : CM.t) : Prop :=
  ∀ r c, c ∈ CM.clusters_for_row m r ↔ r ∈ CM.rows_for_cluster m c.
Definition CM_cols_consistent (m : CM.t) : Prop :=
  ∀ r c, c ∈ CM.clusters_for_column m r ↔ r ∈ CM.columns_for_cluster m c.
Definition CM_consistent (m : CM.t) : Prop :=
  CM_rows_consistent m ∧ CM_cols_consistent m.

Ltac cm_unfold :=
  unfold CM_rows_consistent, CM_cols_consistent,
    CM.clusters_for_row, CM.rows_for_cluster,
    CM.clusters_for_column, CM.columns_for_cluster,
    CM.set_cluster_row_members, CM.set_row_is_member_of,
    CM.set_cluster_column_members, CM.set_column_is_member_of in *;
  simpl in *.

(* closes a consistency goal about updated dictionaries from the
   consistency [Hc] of the dictionaries before the update *)
Ltac consistency_by Hc row cluster :=
  let r := fresh "r" in let c := fresh "c" in
  intros r c;
  pose proof (Hc r c); pose proof (Hc row cluster);
  pose proof (Hc r cluster); pose proof (Hc row c);
  destruct (decide (r = row)); destruct (decide (c = cluster)); subst;
  rewrite ?lookup_insert_eq, ?lookup_insert_ne by done; simpl;
  repeat match goal with
         | E : ?x !! ?k = _, H : context [?x !! ?k] |- _ => rewrite E in H; simpl in H
         | E : ?x !! ?k = _ |- context [?x !! ?k] => rewrite E; simpl
         end;
  set_solver.

Definition preserves {S A} (P : S → Prop) (c : M S A) : Prop :=
  ∀ s, P s → P (final (c s)).



Arguments index_of : simpl never.
Arguments py_index : simpl never.
Arguments int_ok : simpl never.

Definition slots_consistent (f : gmap string (list Z)) (i : gmap Z (gset string))
  : Prop :=
  ∀ r c, (∃ slots, f !! r = Some slots ∧ c ∈ slots ∧ 0 < c) ↔ r ∈ default ∅ (i !! c).

Definition OM_row_holds (m : OM.t) (r : string) (c : Z) : Prop :=
  ∃ held, OM.clusters_for_row r m = Returns held m ∧ c ∈ held.
Definition OM_col_holds (m : OM.t) (r : string) (c : Z) : Prop :=
  ∃ held, OM.clusters_for_column r m = Returns held m ∧ c ∈ held.

Definition OM_rows_consistent (m : OM.t) : Prop :=
  ∀ r c, OM_row_holds m r c ↔ r ∈ OM.rows_for_cluster m c.
Definition OM_cols_consistent (m : OM.t) : Prop :=
  ∀ r c, OM_col_holds m r c ↔ r ∈ OM.columns_for_cluster m c.
Definition OM_consistent (m : OM.t) : Prop :=
  OM_rows_consistent m ∧ OM_cols_consistent m.

(* the store after an edge row--cluster has been recorded with the slot
   array [slots'] for the row *)
Definition OM_with_row_edge (m : OM.t) (row : string) (slots' : list Z) (cluster : Z)
  : OM.t :=
  OM.set_cluster_rows
    (<[cluster := OM.rows_for_cluster m cluster ∪ {[row]}]> (OM.cluster_rows m))
    (OM.set_row_memb (<[row := slots']> (OM.row_memb m)) m).
Definition OM_with_col_edge (m : OM.t) (col : string) (slots' : list Z) (cluster : Z)
  : OM.t :=
  OM.set_cluster_cols
    (<[cluster := OM.columns_for_cluster m cluster ∪ {[col]}]> (OM.cluster_cols m))
    (OM.set_col_memb (<[col := slots']> (OM.col_memb m)) m).

(* the slot addressed by [index] in the array of [row] holds a cluster *)
Definition OM_row_slot_holds_cluster (m : OM.t) (row : string) (index : Z) : Prop :=
  ∀ slots k, OM.row_memb m !! row = Some slots →
             py_index (length slots) index = Some k →
             0 < default 0 (slots !! k).

Definition OM_rows_are (f : gmap string (list Z)) (i : gmap Z (gset string))
    (m : OM.t) : Prop :=
  OM.row_memb m = f ∧ OM.cluster_rows m = i.
Definition OM_cols_are (g : gmap string (list Z)) (j : gmap Z (gset string))
    (m : OM.t) : Prop :=
  OM.col_memb m = g ∧ OM.cluster_cols m = j.

(** ** Sample configurations, stores and scores *)

Definition sample_config : Config :=
  {| num_clusters := 3; clusters_per_row := 2; clusters_per_col := 2;
     prob_row_change := 1; prob_col_change := 1;
     max_changes_per_row := 1; max_changes_per_col := 1 |}.

Definition sample_cm : CM.t :=
  CM.init {[ "g1"%string := {[ 1 ]} ]} {[ "c1"%string := {[ 1 ]} ]} sample_config.

Definition sample_om : OM.t :=
  OM.init {[ "g1"%string := [1] ]} {[ "c1"%string := [1] ]} sample_config.

(* a column holding clusters 1 and 2 *)
Definition two_cluster_column : OM.t :=
  OM.init ∅ {[ "c1"%string := [1; 2] ]} sample_config.



Definition fresh_cm_shelf : CM.Shelf :=
  {| CM.shelf_iteration := Some 1;
     CM.shelf_row_is_member_of := None;
     CM.shelf_col_is_member_of := None |}.

Definition fresh_om_shelf : OM.Shelf :=
  {| OM.shelf_iteration := Some 1;
     OM.shelf_row_is_member_of := None;
     OM.shelf_col_is_member_of := None |}.

(* a row that holds clusters_per_row clusters and then a third one, added
   with force=True as post-adjustment does *)
Definition forced_row_om : OM.t :=
  final (OM.add_cluster_to_row "g1" 2 true
           (OM.init {[ "g1"%string := [1; 3] ]} ∅ sample_config)).





(* the quantile of a one-element sample is that element *)
Definition one_sample_quantile (scores : list Q) (cutoff : Q) : Q :=
  default 0%Q (head scores).

(* one slot per row, filled with cluster 1 *)
Definition one_slot_config : Config :=
  {| num_clusters := 2; clusters_per_row := 1; clusters_per_col := 1;
     prob_row_change := 1; prob_col_change := 1;
     max_changes_per_row := 1; max_changes_per_col := 1 |}.



(* every cluster scores its own number *)
Definition number_scores : DataMatrix Q :=
  {| row_names := ["g1"%string];
     num_columns := 3;
     cell := λ _ cluster, inject_Z cluster |}.

(* five clusters, two per row, up to two changes per row, gate always open *)
Definition five_cluster_config : Config :=
  {| num_clusters := 5; clusters_per_row := 2; clusters_per_col := 2;
     prob_row_change := 1; prob_col_change := 1;
     max_changes_per_row := 2; max_changes_per_col := 2 |}.

(* row g1 holds cluster 5 in its first slot; the second slot is free *)
Definition held_best_om : OM.t :=
  OM.init {[ "g1"%string := [5] ]} ∅ five_cluster_config.

(* cluster 5 scores 9, cluster 3 scores 8, the others 0 *)
Definition held_best_scores : DataMatrix Q :=
  {| row_names := ["g1"%string];
     num_columns := 5;
     cell := λ _ cluster,
       if decide (cluster = 5) then 9%Q
       else if decide (cluster = 3) then 8%Q else 0%Q |}.

(* the two best-scoring clusters of these scores, best first *)
Definition held_best_order (values : list Q) (n : nat) : list Z := [5; 3].

(* column c1 holds clusters 1 and 2; up to two changes per column *)
Definition full_column_om : OM.t :=
  OM.init ∅ {[ "c1"%string := [1; 2] ]} five_cluster_config.

(* cluster 3 scores 3, cluster 1 scores 2, cluster 2 scores 1 *)
Definition column_scores : DataMatrix Q :=
  {| row_names := ["c1"%string];
     num_columns := 5;
     cell := λ _ cluster,
       if decide (cluster = 3) then 3%Q
       else if decide (cluster = 1) then 2%Q
       else if decide (cluster = 2) then 1%Q else 0%Q |}.

(* the two best-scoring clusters of these scores, best first *)
Definition column_order (values : list Q) (n : nat) : list Z := [3; 1].

(* column c1 holds cluster 1 and has a free slot *)
Definition free_column_om : OM.t :=
  OM.init ∅ {[ "c1"%string := [1] ]} five_cluster_config.

Definition free_column_order (values : list Q) (n : nat) : list Z := [3; 2].

(** ** Further sample stores *)

(* a row holding three clusters where two are allowed, as after the
   unchecked adds of post-adjustment *)
Definition crowded_row_cm : CM.t :=
  CM.init {[ "g1"%string := {[ 1; 2; 3 ]} ]} ∅ sample_config.

(* a row whose only slot is free *)
Definition free_slot_om : OM.t :=
  OM.init {[ "g1"%string := [] ]} ∅ one_slot_config.

(** ** Capacity of rows and columns *)

(* no row holds more than clusters_per_row clusters, no column more than
   clusters_per_col *)
Definition CM_rows_within_capacity (m : CM.t) : Prop :=
  ∀ r, (CM.num_clusters_for_row m r ≤ CM.num_clusters_per_row m)%nat.
Definition CM_cols_within_capacity (m : CM.t) : Prop :=
  ∀ c, (CM.num_clusters_for_column m c ≤ CM.num_clusters_per_column m)%nat.

(* what a row operation leaves alone: the configuration and the column
   dictionaries; and conversely *)
Definition CM_row_frame (cfg : Config) (g : gmap string (gset Z))
    (j : gmap Z (gset string)) (m : CM.t) : Prop :=
  CM.config_params m = cfg ∧ CM.column_is_member_of m = g ∧
  CM.cluster_column_members m = j.
Definition CM_col_frame (cfg : Config) (f : gmap string (gset Z))
    (i : gmap Z (gset string)) (m : CM.t) : Prop :=
  CM.config_params m = cfg ∧ CM.row_is_member_of m = f ∧
  CM.cluster_row_members m = i.

(* the invariant of the row updater, and of the column updater *)
Definition CM_row_invariant (cfg : Config) (g : gmap string (gset Z))
    (j : gmap Z (gset string)) (m : CM.t) : Prop :=
  CM_row_frame cfg g j m ∧ CM_rows_consistent m ∧ CM_rows_within_capacity m.
Definition CM_col_invariant (cfg : Config) (f : gmap string (gset Z))
    (i : gmap Z (gset string)) (m : CM.t) : Prop :=
  CM_col_frame cfg f i m ∧ CM_cols_consistent m ∧ CM_cols_within_capacity m.

(** ** Invariants of the slot-based store under the updater *)

(* every slot of every row holds a cluster number or 0 *)
Definition OM_row_slots_nonneg (o : OM.t) : Prop :=
  ∀ row slots c, OM.row_memb o !! row = Some slots → c ∈ slots → 0 ≤ c.

(* what the row updater leaves alone, and the column updater *)
Definition OM_row_frame (cfg : Config) (g : gmap string (list Z))
    (j : gmap Z (gset string)) (o : OM.t) : Prop :=
  OM.config_params o = cfg ∧ OM.col_memb o = g ∧ OM.cluster_cols o = j.
Definition OM_col_frame (cfg : Config) (f : gmap string (list Z))
    (i : gmap Z (gset string)) (o : OM.t) : Prop :=
  OM.config_params o = cfg ∧ OM.row_memb o = f ∧ OM.cluster_rows o = i.

Definition OM_row_invariant (cfg : Config) (g : gmap string (list Z))
    (j : gmap Z (gset string)) (o : OM.t) : Prop :=
  OM_row_frame cfg g j o ∧ OM_rows_consistent o ∧ OM_row_slots_nonneg o.
Definition OM_col_invariant (cfg : Config) (f : gmap string (list Z))
    (i : gmap Z (gset string)) (o : OM.t) : Prop :=
  OM_col_frame cfg f i o ∧ OM_cols_consistent o.

(* the entries of a list of best clusters are cluster numbers: positive and
   in the range of the int arrays *)
Definition cluster_numbers (l : list Z) : Prop :=
  Forall (λ c, 0 < c ∧ int_ok c = true) l.

(* a store whose gate opens for draws up to 1/2 *)
Definition gated_config : Config :=
  {| num_clusters := 3; clusters_per_row := 2; clusters_per_col := 2;
     prob_row_change := 1 # 2; prob_col_change := 1 # 2;
     max_changes_per_row := 1; max_changes_per_col := 1 |}.

Definition gated_cm : CM.t :=
  CM.init {[ "g1"%string := {[ 1 ]} ]} ∅ gated_config.

(** ** What post-adjustment adds *)



(** ** Post-adjustment of ClusterMembership *)

(* the while loop of ClusterMembership.adjust_cluster; clusters_for_row of
   this class returns a set for every row, and the scores collected from it
   are not used *)
Fixpoint adjust_cluster_loop (tries_left : nat) (rowscores : DataMatrix Q)
    (cluster : Z) (wh : list string) (result : gmap string Z)
  : M CM.t (gmap string Z) :=
  match tries_left, wh with
  | O, _ => ret result
  | _, [] => ret result
  | S tries_left', _ =>
      match max_row_in_column rowscores cluster wh with
      | None => raise IndexError
      | Some wh2 =>
          if decide (wh2 ∈ row_names rowscores)
          then adjust_cluster_loop tries_left' rowscores cluster
                                   (remove_first wh2 wh) (<[wh2 := cluster]> result)
          else raise ValueError
      end
  end.

Section PostAdjustCM.
Variable quantile : list Q → Q → Q.

(* the candidate pool of ClusterMembership.adjust_cluster *)
Definition adjust_cluster_pool (m : CM.t) (cluster : Z) (rowscores : DataMatrix Q)
    (cutoff : Q) : list string :=
  let old_rows := CM.rows_for_cluster m cluster in
  let not_in := filter (λ row_name, row_name ∉ old_rows) (row_names rowscores) in
  let threshold :=
    quantile (map (λ row, cell rowscores row cluster) (elements old_rows)) cutoff in
  filter (λ row_name, Qltb (cell rowscores row_name cluster) threshold = true) not_in.

Definition adjust_cluster (cluster : Z) (rowscores : DataMatrix Q)
    (cutoff : Q) (limit : nat) : M CM.t (gmap string Z) :=
  m <~ get ;
  let wh := adjust_cluster_pool m cluster rowscores cutoff in
  if decide (length wh = 0)%nat then ret ∅
  else if decide (limit < length wh)%nat then ret ∅
  else adjust_cluster_loop MAX_ADJUST_TRIES rowscores cluster wh ∅.

(* postadjust: the assignments are applied with the unchecked add *)
Definition postadjust (rowscores : DataMatrix Q) (cutoff : Q) (limit : nat)
  : M CM.t bool :=
  m <~ get ;
  assign_list <~ collect (seq 1 (num_clusters (CM.config_params m)))
                   (λ cluster, adjust_cluster (Z.of_nat cluster) rowscores cutoff limit) ;
  _ <~ for_each assign_list (λ assign,
         for_each (map_to_list assign) (λ '(row, cluster),
           CM.add_cluster_to_row_unchecked row cluster)) ;
  ret (existsb (λ assign : gmap string Z, bool_decide (0 < size assign)%nat)
               assign_list).

End PostAdjustCM.


(* a row that holds clusters_per_row clusters and is a candidate for a
   third one: g1 is in clusters 1 and 3 and scores below g2, the only
   member of cluster 2 *)
Definition crowded_scores : DataMatrix Q :=
  {| row_names := ["g1"; "g2"]%string;
     num_columns := 3;
     cell := λ row _, if decide (row = "g1"%string) then (-1)%Q else 0%Q |}.

Definition crowded_cm : CM.t :=
  CM.init {[ "g1"%string := {[ 1; 3 ]}; "g2"%string := {[ 2 ]} ]} ∅ sample_config.

(** ** Creating a membership from seeds

    The seeding functions are passed in: seed_row_memberships fills the
    table of zeros it is given (the table comes back as its result), and
    seed_column_memberships computes the column table from the seeded row
    table.  The data matrix is seen through its row and column names. *)




Section Create.
Variable seed_row_memberships : list (list Z) → list (list Z).
Variable seed_column_memberships : list (list Z) → list (list Z).



End Create.


(** ** microarray.order *)

(* sorted(alist, reverse=True) on scores *)
Fixpoint insert_score_desc (x : Q) (l : list Q) : list Q :=
  match l with
  | [] => [x]
  | y :: l' => if Qltb x y then y :: insert_score_desc x l' else x :: l
  end.
Definition sorted_scores_reverse (l : list Q) : list Q := foldr insert_score_desc [] l.

(* alist.index(item): the first position holding a score equal to item *)
Definition score_index (item : Q) (alist : list Q) : option nat :=
  fst <$> list_find (λ y, Qeq_bool y item = true) alist.

(* [(alist.index(item)) + 1 for item in items] *)
Fixpoint order_items (alist items : list Q) : exn + list Z :=
  match items with
  | [] => inr []
  | item :: rest =>
      match score_index item alist with
      | None => inl ValueError
      | Some i =>
          match order_items alist rest with
          | inl e => inl e
          | inr ranks => inr (Z.of_nat i + 1 :: ranks)
          end
      end
  end.

Definition order (alist : list Q) : exn + list Z :=
  order_items alist (sorted_scores_reverse alist).

(* no two positions hold equal scores *)
Fixpoint distinct_scores (l : list Q) : Prop :=
  match l with
  | [] => True
  | x :: l' => (∀ y, y ∈ l' → ¬ (x == y)%Q) ∧ distinct_scores l'
  end.

(** * Properties *)

(** ** The set-based store in closed form *)

Lemma gset_union_singleton_id `{Countable A} (X : gset A) (x : A) :
  x ∈ X → X ∪ {[x]} = X.
Proof. set_solver. Qed.

Lemma CM_add_row_unchecked_eq row cluster m :
  CM.add_cluster_to_row_unchecked row cluster m =
  Returns tt
    (CM.set_cluster_row_members
       (<[cluster := CM.rows_for_cluster m cluster ∪ {[row]}]> (CM.cluster_row_members m))
       (CM.set_row_is_member_of
          (<[row := CM.clusters_for_row m row ∪ {[cluster]}]> (CM.row_is_member_of m)) m)).
Proof.
  unfold CM.add_cluster_to_row_unchecked, CM.clusters_for_row, CM.rows_for_cluster.
  destruct m as [cfg f g i j]; run.
  destruct (f !! row) as [cl|] eqn:Hf; simpl;
    destruct (i !! cluster) as [rs|] eqn:Hi; simpl;
    rewrite ?lookup_insert_eq, ?Hf, ?Hi; simpl;
    repeat case_decide; unfold CM.set_cluster_row_members, CM.set_row_is_member_of;
    simpl; f_equal; f_equal;
    rewrite ?insert_insert_eq, ?gset_union_singleton_id by set_solver;
    try (rewrite ?(left_id_L ∅ (∪)); reflexivity);
    try (symmetry; by apply insert_id); try set_solver.
Qed.

Lemma CM_remove_row_consistent row cluster m :
  CM_rows_consistent m →
  CM_rows_consistent (final (CM.remove_cluster_from_row row cluster m)).
Proof.
  intros Hc. unfold CM.remove_cluster_from_row.
  destruct m as [cfg f g i j]; cm_unfold; run.
  destruct (f !! row) as [cl|] eqn:Hf; simpl.
  - destruct (decide (cluster ∈ cl)); simpl; [|by cm_unfold].
    destruct (i !! cluster) as [rs|] eqn:Hi; simpl.
    + destruct (decide (row ∈ rs)); simpl.
      * consistency_by Hc row cluster.
      * exfalso. specialize (Hc row cluster). rewrite Hf, Hi in Hc. set_solver.
    + exfalso. specialize (Hc row cluster). rewrite Hf, Hi in Hc. set_solver.
  - destruct (i !! cluster) as [rs|] eqn:Hi; simpl; [|done].
    destruct (decide (row ∈ rs)); simpl; [|done].
    exfalso. specialize (Hc row cluster). rewrite Hf, Hi in Hc. set_solver.
Qed.

(** ** Invariants of computations *)

Lemma preserves_ret {S A} (P : S → Prop) (a : A) : preserves P (ret a).
Proof. by intros s Hs. Qed.

Lemma preserves_raise {S A} (P : S → Prop) e : preserves P (@raise S A e).
Proof. by intros s Hs. Qed.

Lemma preserves_bind {S A B} (P : S → Prop) (c : M S A) (k : A → M S B) :
  preserves P c → (∀ a, preserves P (k a)) → preserves P (bind c k).
Proof.
  intros Hc Hk s Hs. unfold bind. specialize (Hc s Hs).
  destruct (c s) as [a s'|e s']; simpl in *; [by apply Hk | done].
Qed.

Lemma preserves_get {S B} (P : S → Prop) (k : S → M S B) :
  (∀ s0, P s0 → P (final (k s0 s0))) → preserves P (bind get k).
Proof. intros Hk s Hs. by apply Hk. Qed.

Lemma preserves_try {S A} (P : S → Prop) (body handler : M S A) :
  preserves P body → preserves P handler → preserves P (try_except body handler).
Proof.
  intros Hb Hh s Hs. unfold try_except. specialize (Hb s Hs).
  destruct (body s) as [a s'|e s']; simpl in *; [done | by apply Hh].
Qed.

Lemma preserves_for_each {S A} (P : S → Prop) (l : list A) (body : A → M S unit) :
  (∀ x, preserves P (body x)) → preserves P (for_each l body).
Proof.
  intros Hb. induction l as [|x l IH]; simpl.
  - apply preserves_ret.
  - apply preserves_bind; [apply Hb | intros _; apply IH].
Qed.

(** ** Consistency of the set-based store *)

Lemma CM_add_row_unchecked_consistent row cluster :
  preserves CM_rows_consistent (CM.add_cluster_to_row_unchecked row cluster).
Proof.
  intros m Hc. rewrite CM_add_row_unchecked_eq.
  destruct m as [cfg f g i j]; cm_unfold.
  destruct (f !! row) as [cl|] eqn:Hf; destruct (i !! cluster) as [rs|] eqn:Hi;
    simpl; consistency_by Hc row cluster.
Qed.



Lemma CM_add_col_unchecked_eq column cluster m :
  CM.add_cluster_to_column_unchecked column cluster m =
  Returns tt
    (CM.set_cluster_column_members
       (<[cluster := CM.columns_for_cluster m cluster ∪ {[column]}]>
          (CM.cluster_column_members m))
       (CM.set_column_is_member_of
          (<[column := CM.clusters_for_column m column ∪ {[cluster]}]>
             (CM.column_is_member_of m)) m)).
Proof.
  unfold CM.add_cluster_to_column_unchecked, CM.clusters_for_column,
    CM.columns_for_cluster.
  destruct m as [cfg f g i j]; run.
  destruct (g !! column) as [cl|] eqn:Hg; simpl;
    destruct (j !! cluster) as [cs|] eqn:Hj; simpl;
    rewrite ?lookup_insert_eq, ?Hg, ?Hj; simpl;
    repeat case_decide;
    unfold CM.set_cluster_column_members, CM.set_column_is_member_of;
    simpl; f_equal; f_equal;
    rewrite ?insert_insert_eq, ?gset_union_singleton_id by set_solver;
    try (rewrite ?(left_id_L ∅ (∪)); reflexivity);
    try (symmetry; by apply insert_id); try set_solver.
Qed.

Lemma CM_add_col_unchecked_consistent column cluster :
  preserves CM_cols_consistent (CM.add_cluster_to_column_unchecked column cluster).
Proof.
  intros m Hc. rewrite CM_add_col_unchecked_eq.
  destruct m as [cfg f g i j]; cm_unfold.
  destruct (g !! column) as [cl|] eqn:Hg; destruct (j !! cluster) as [cs|] eqn:Hj;
    simpl; consistency_by Hc column cluster.
Qed.


Lemma CM_remove_col_consistent column cluster :
  preserves CM_cols_consistent (CM.remove_cluster_from_column column cluster).
Proof.
  intros m Hc. unfold CM.remove_cluster_from_column.
  destruct m as [cfg f g i j]; cm_unfold; run.
  destruct (j !! cluster) as [cs|] eqn:Hj; simpl.
  - destruct (decide (column ∈ cs)); simpl; [|by cm_unfold].
    destruct (g !! column) as [cl|] eqn:Hg; simpl.
    + destruct (decide (cluster ∈ cl)); simpl.
      * consistency_by Hc column cluster.
      * exfalso. specialize (Hc column cluster). rewrite Hg, Hj in Hc. set_solver.
    + exfalso. specialize (Hc column cluster). rewrite Hg, Hj in Hc. set_solver.
  - destruct (g !! column) as [cl|] eqn:Hg; simpl; [|done].
    destruct (decide (cluster ∈ cl)); simpl; [|done].
    exfalso. specialize (Hc column cluster). rewrite Hg, Hj in Hc. set_solver.
Qed.


(** Row operations leave the column dictionaries alone, and conversely. *)













(** ** Slot arrays *)

Lemma index_of_Some x (l : list Z) i :
  index_of x l = Some i → l !! i = Some x ∧ ∀ j, (j < i)%nat → l !! j ≠ Some x.
Proof.
  unfold index_of. destruct (list_find _ l) as [[i' y]|] eqn:E; [|done].
  intros [= <-]. apply list_find_Some in E as (Hl & -> & Hfirst).
  split; [done|]. intros j Hj Hl'. by apply (Hfirst j x).
Qed.

Lemma index_of_None x (l : list Z) : index_of x l = None ↔ x ∉ l.
Proof.
  unfold index_of. destruct (list_find _ l) as [[i' y]|] eqn:E; simpl.
  - apply list_find_Some in E as (Hl & -> & _).
    split; [done|]. intros Hn. destruct Hn. by eapply list_elem_of_lookup_2.
  - split; [|done]. intros _ Hx.
    apply list_find_None in E. rewrite list.Forall_forall in E. by apply (E x).
Qed.


Lemma py_index_nat len (i : nat) :
  (i < len)%nat → py_index len (Z.of_nat i) = Some i.
Proof.
  intros Hi. unfold py_index.
  destruct (Z.leb_spec 0 (Z.of_nat i)); [|lia].
  destruct (Z.ltb_spec (Z.of_nat i) (Z.of_nat len)); [|lia].
  by rewrite Nat2Z.id.
Qed.

Lemma py_index_lt len i k : py_index len i = Some k → (k < len)%nat.
Proof.
  unfold py_index. repeat case_match; intros [= <-]; lia.
Qed.

(* what a store into a slot does to the entries of the array *)
Lemma elem_of_slot_store (l : list Z) i old new x :
  l !! i = Some old → x ≠ old →
  x ∈ <[i := new]> l ↔ x = new ∨ x ∈ l.
Proof.
  intros Hi Hx. split.
  - intros [j Hj]%list_elem_of_lookup_1.
    destruct (decide (j = i)) as [->|Hne].
    + rewrite list_lookup_insert_eq in Hj by (by eapply lookup_lt_Some).
      left. congruence.
    + rewrite list_lookup_insert_ne in Hj by done.
      right. by eapply list_elem_of_lookup_2.
  - intros [->|[j Hj]%list_elem_of_lookup_1].
    + apply (list_elem_of_lookup_2 _ i).
      apply list_lookup_insert_eq. by eapply lookup_lt_Some.
    + apply (list_elem_of_lookup_2 _ j).
      rewrite list_lookup_insert_ne; [done|]. intros ->. congruence.
Qed.

Lemma elem_of_slot_store_new (l : list Z) i new :
  (i < length l)%nat → new ∈ <[i := new]> l.
Proof.
  intros Hi. apply (list_elem_of_lookup_2 _ i). by apply list_lookup_insert_eq.
Qed.

(** ** Consistency of forward slot arrays and inverse sets *)

(* adding an edge: the array of [row] gains [cluster] and nothing else that
   is a cluster *)
Lemma slots_consistent_add f i row slots slots' cluster :
  slots_consistent f i →
  f !! row = Some slots → 0 < cluster →
  (∀ c, 0 < c → c ∈ slots' ↔ c = cluster ∨ c ∈ slots) →
  slots_consistent (<[row := slots']> f)
                   (<[cluster := default ∅ (i !! cluster) ∪ {[row]}]> i).
Proof.
  intros Hc Hf Hpos Hs r c.
  destruct (decide (r = row)) as [->|Hr]; destruct (decide (c = cluster)) as [->|Hcl];
    rewrite ?lookup_insert_eq, ?lookup_insert_ne by done; simpl.
  - split; [set_solver|]. intros _. exists slots'. split_and!; [done| |done].
    apply Hs; auto.
  - rewrite <- (Hc row c). split.
    + intros (s & [= <-] & Hin & Hp). exists slots. split_and!; [done| |done].
      apply Hs in Hin; [|done]. by destruct Hin.
    + intros (s & Hs' & Hin & Hp). simplify_eq. exists slots'.
      split_and!; [done| |done]. apply Hs; auto.
  - rewrite elem_of_union, <- (Hc r cluster). set_solver.
  - apply Hc.
Qed.

(* replacing the cluster [old] held in slot [k] by [new] *)
Lemma slots_consistent_replace f i row slots k old new :
  slots_consistent f i →
  f !! row = Some slots → slots !! k = Some old → 0 < old → 0 < new →
  let slots' := <[k := new]> slots in
  let i1 := if decide (old ∉ slots')
            then <[old := default ∅ (i !! old) ∖ {[row]}]> i else i in
  slots_consistent (<[row := slots']> f)
                   (<[new := default ∅ (i1 !! new) ∪ {[row]}]> i1).
Proof.
  intros Hc Hf Hk Hold Hnew slots' i1.
  assert (Hlt : (k < length slots)%nat) by (by eapply lookup_lt_Some).
  assert (Hnew_in : new ∈ slots') by (by apply elem_of_slot_store_new).
  assert (Hother : ∀ c, c ≠ old → c ∈ slots' ↔ c = new ∨ c ∈ slots)
    by (intros c Hne; by eapply elem_of_slot_store).
  assert (Hrow_old : row ∈ default ∅ (i !! old)).
  { apply Hc. exists slots. split_and!; [done| |done].
    by eapply list_elem_of_lookup_2. }
  assert (Hi1 : ∀ r c, r ∈ default ∅ (i1 !! c) ↔
            r ∈ default ∅ (i !! c) ∧ ¬ (r = row ∧ c = old ∧ old ∉ slots')).
  { intros r c. unfold i1. destruct (decide (old ∉ slots')) as [Hn|Hn].
    - destruct (decide (c = old)) as [->|Hne].
      + rewrite lookup_insert_eq. simpl. set_solver.
      + rewrite lookup_insert_ne by done. naive_solver.
    - naive_solver. }
  intros r c.
  destruct (decide (c = new)) as [->|Hcn];
    [rewrite (lookup_insert_eq i1) | rewrite (lookup_insert_ne i1 new c) by done];
    simpl.
  - rewrite elem_of_union, Hi1, <- (Hc r new), elem_of_singleton.
    destruct (decide (r = row)) as [->|Hr];
      rewrite ?lookup_insert_eq, ?lookup_insert_ne by done.
    + split; [auto|]. intros _. by exists slots'.
    + split; [|naive_solver]. intros H. left. split; [done|]. naive_solver.
  - rewrite Hi1, <- (Hc r c).
    destruct (decide (r = row)) as [->|Hr];
      rewrite ?lookup_insert_eq, ?lookup_insert_ne by done; [|naive_solver].
    destruct (decide (c = old)) as [->|Hco].
    + split.
      * intros (s & [= <-] & Hin & Hp). split; [|naive_solver].
        exists slots. split_and!; [done| |done]. by eapply list_elem_of_lookup_2.
      * intros [_ Hn]. exists slots'. split_and!; [done| |done].
        destruct (decide (old ∈ slots')); [done|]. destruct Hn; auto.
    + split.
      * intros (s & [= <-] & Hin & Hp). split; [|naive_solver].
        exists slots. split_and!; [done| |done].
        apply Hother in Hin; [|done]. naive_solver.
      * intros [(s & Hs & Hin & Hp) _]. simplify_eq. exists slots'.
        split_and!; [done| |done]. apply Hother; auto.
Qed.

(** ** The slot-based store *)

Lemma elem_of_clusters_of c slots : c ∈ OM.clusters_of slots ↔ c ∈ slots ∧ 0 < c.
Proof.
  unfold OM.clusters_of. rewrite elem_of_list_to_set, list_elem_of_filter. tauto.
Qed.

Lemma OM_row_holds_iff m r c :
  OM_row_holds m r c ↔ ∃ slots, OM.row_memb m !! r = Some slots ∧ c ∈ slots ∧ 0 < c.
Proof.
  unfold OM_row_holds, OM.clusters_for_row; run.
  destruct (OM.row_memb m !! r) as [slots|]; split.
  - intros (held & [= <-] & Hc). apply elem_of_clusters_of in Hc. by exists slots.
  - intros (s & [= <-] & Hc). eexists. split; [done|]. by apply elem_of_clusters_of.
  - by intros (held & ? & _).
  - by intros (s & ? & _).
Qed.

Lemma OM_col_holds_iff m r c :
  OM_col_holds m r c ↔ ∃ slots, OM.col_memb m !! r = Some slots ∧ c ∈ slots ∧ 0 < c.
Proof.
  unfold OM_col_holds, OM.clusters_for_column; run.
  destruct (OM.col_memb m !! r) as [slots|]; split.
  - intros (held & [= <-] & Hc). apply elem_of_clusters_of in Hc. by exists slots.
  - intros (s & [= <-] & Hc). eexists. split; [done|]. by apply elem_of_clusters_of.
  - by intros (held & ? & _).
  - by intros (s & ? & _).
Qed.

Lemma OM_rows_consistent_iff m :
  OM_rows_consistent m ↔ slots_consistent (OM.row_memb m) (OM.cluster_rows m).
Proof.
  unfold OM_rows_consistent, slots_consistent, OM.rows_for_cluster.
  split; intros Hc r c; specialize (Hc r c); by rewrite OM_row_holds_iff in *.
Qed.

Lemma OM_cols_consistent_iff m :
  OM_cols_consistent m ↔ slots_consistent (OM.col_memb m) (OM.cluster_cols m).
Proof.
  unfold OM_cols_consistent, slots_consistent, OM.columns_for_cluster.
  split; intros Hc r c; specialize (Hc r c); by rewrite OM_col_holds_iff in *.
Qed.

Lemma OM_add_row_cases row cluster force m :
  OM.add_cluster_to_row row cluster force m =
  match OM.row_memb m !! row with
  | None => Raises (if force then KeyError else LimitExceeded) m
  | Some slots =>
      match index_of 0 slots with
      | Some i =>
          if int_ok cluster
          then Returns tt (OM_with_row_edge m row (<[i := cluster]> slots) cluster)
          else Raises (if force then OverflowError else LimitExceeded) m
      | None =>
          if force
          then if int_ok cluster
               then Returns tt (OM_with_row_edge m row (slots ++ [cluster]) cluster)
               else Raises OverflowError m
          else Raises LimitExceeded m
      end
  end.
Proof.
  unfold OM.add_cluster_to_row, OM.first_free_slot_for_row, OM.store_row_slot,
    OM.append_row_slot, OM.add_reverse_row, OM_with_row_edge, OM.rows_for_cluster.
  destruct m as [cfg f g i j]; run.
  destruct (f !! row) as [slots|] eqn:Hf; simpl; [|by destruct force; simpl; rewrite ?Hf].
  destruct (index_of 0 slots) as [k|] eqn:Hk; simpl; rewrite ?Hf; simpl.
  - apply index_of_Some in Hk as [Hk _].
    rewrite py_index_nat by (by eapply lookup_lt_Some).
    destruct (int_ok cluster); simpl.
    + destruct (i !! cluster) as [rs|]; simpl; [done|].
      by rewrite (left_id_L ∅ (∪)).
    + by destruct force; simpl; rewrite ?Hf; simpl; rewrite ?Hk.
  - destruct force; [|done]. simpl. rewrite Hf. destruct (int_ok cluster); simpl; [|done].
    destruct (i !! cluster) as [rs|]; simpl; [done|].
    by rewrite (left_id_L ∅ (∪)).
Qed.

Lemma OM_add_col_cases col cluster force m :
  OM.add_cluster_to_column col cluster force m =
  match OM.col_memb m !! col with
  | None => Raises (if force then KeyError else LimitExceeded) m
  | Some slots =>
      match index_of 0 slots with
      | Some i =>
          if int_ok cluster
          then Returns tt (OM_with_col_edge m col (<[i := cluster]> slots) cluster)
          else Raises (if force then OverflowError else LimitExceeded) m
      | None =>
          if force
          then if int_ok cluster
               then Returns tt (OM_with_col_edge m col (slots ++ [cluster]) cluster)
               else Raises OverflowError m
          else Raises LimitExceeded m
      end
  end.
Proof.
  unfold OM.add_cluster_to_column, OM.first_free_slot_for_column, OM.store_col_slot,
    OM.append_col_slot, OM.add_reverse_col, OM_with_col_edge, OM.columns_for_cluster.
  destruct m as [cfg f g i j]; run.
  destruct (g !! col) as [slots|] eqn:Hg; simpl; [|by destruct force; simpl; rewrite ?Hg].
  destruct (index_of 0 slots) as [k|] eqn:Hk; simpl; rewrite ?Hg; simpl.
  - apply index_of_Some in Hk as [Hk _].
    rewrite py_index_nat by (by eapply lookup_lt_Some).
    destruct (int_ok cluster); simpl.
    + destruct (j !! cluster) as [cs|]; simpl; [done|].
      by rewrite (left_id_L ∅ (∪)).
    + by destruct force; simpl; rewrite ?Hg; simpl; rewrite ?Hk.
  - destruct force; [|done]. simpl. rewrite Hg. destruct (int_ok cluster); simpl; [|done].
    destruct (j !! cluster) as [cs|]; simpl; [done|].
    by rewrite (left_id_L ∅ (∪)).
Qed.

Lemma OM_add_row_consistent row cluster force :
  0 < cluster →
  preserves OM_rows_consistent (OM.add_cluster_to_row row cluster force).
Proof.
  intros Hpos m Hc. rewrite OM_add_row_cases.
  destruct (OM.row_memb m !! row) as [slots|] eqn:Hf; [|done].
  pose proof (proj1 (OM_rows_consistent_iff m) Hc) as Hs.
  destruct (index_of 0 slots) as [k|] eqn:Hk.
  - destruct (int_ok cluster); [|done]. apply OM_rows_consistent_iff; simpl.
    apply index_of_Some in Hk as [Hk _].
    eapply slots_consistent_add; [done..|].
    intros c Hcpos. eapply elem_of_slot_store; [done|lia].
  - destruct force; [|done]. destruct (int_ok cluster); [|done].
    apply OM_rows_consistent_iff; simpl.
    eapply slots_consistent_add; [done..|].
    intros c Hcpos. rewrite elem_of_app, list_elem_of_singleton. tauto.
Qed.


Lemma OM_add_edge_row_eq new row m :
  OM.add_edge_row new row m =
  Returns tt (OM.set_cluster_rows
                (<[new := OM.rows_for_cluster m new ∪ {[row]}]> (OM.cluster_rows m)) m).
Proof.
  unfold OM.add_edge_row, OM.rows_for_cluster. destruct m as [cfg f g i j]; run.
  destruct (i !! new) as [rs|] eqn:Hi; simpl.
  - by rewrite Hi.
  - rewrite lookup_insert_eq. unfold OM.set_cluster_rows; simpl.
    by rewrite insert_insert_eq.
Qed.

Lemma OM_add_edge_col_eq new col m :
  OM.add_edge_col new col m =
  Returns tt (OM.set_cluster_cols
                (<[new := OM.columns_for_cluster m new ∪ {[col]}]> (OM.cluster_cols m)) m).
Proof.
  unfold OM.add_edge_col, OM.columns_for_cluster. destruct m as [cfg f g i j]; run.
  destruct (j !! new) as [cs|] eqn:Hj; simpl.
  - by rewrite Hj.
  - rewrite lookup_insert_eq. unfold OM.set_cluster_cols; simpl.
    by rewrite insert_insert_eq.
Qed.

Lemma OM_replace_row_cases row index new m :
  OM.replace_row_cluster row index new m =
  match OM.row_memb m !! row with
  | None => Raises KeyError m
  | Some slots =>
      if decide (new ∉ OM.clusters_of slots)
      then
        match py_index (length slots) index with
        | None => Raises IndexError m
        | Some k =>
            if int_ok new
            then
              let old := default 0 (slots !! k) in
              let slots' := <[k := new]> slots in
              let m1 := OM.set_row_memb (<[row := slots']> (OM.row_memb m)) m in
              if decide (old ∉ slots')
              then
                match OM.cluster_rows m !! old with
                | None => Raises KeyError m1
                | Some rows =>
                    if decide (row ∈ rows)
                    then
                      let i1 := <[old := rows ∖ {[row]}]> (OM.cluster_rows m) in
                      Returns tt (OM.set_cluster_rows
                                    (<[new := default ∅ (i1 !! new) ∪ {[row]}]> i1) m1)
                    else Raises KeyError m1
                end
              else
                Returns tt (OM.set_cluster_rows
                              (<[new := OM.rows_for_cluster m new ∪ {[row]}]>
                                 (OM.cluster_rows m)) m1)
            else Raises OverflowError m
        end
      else Returns tt m
  end.
Proof.
  unfold OM.replace_row_cluster, OM.clusters_for_row, OM.store_row_slot,
    OM.remove_reverse_row.
  destruct m as [cfg f g i j]; run.
  destruct (f !! row) as [slots|] eqn:Hf; simpl; [|done].
  destruct (decide (new ∉ OM.clusters_of slots)); simpl; [|done].
  rewrite Hf; simpl.
  destruct (py_index (length slots) index) as [k|] eqn:Hk; simpl; [|done].
  rewrite Hf; simpl. rewrite Hk; simpl.
  destruct (int_ok new); simpl; [|done].
  rewrite lookup_insert_eq; simpl.
  destruct (decide (default 0 (slots !! k) ∉ <[k:=new]> slots)); simpl.
  - destruct (i !! default 0 (slots !! k)) as [rs|] eqn:Hi; simpl; [|done].
    destruct (decide (row ∈ rs)); simpl; [|done].
    by rewrite OM_add_edge_row_eq.
  - by rewrite OM_add_edge_row_eq.
Qed.

Lemma OM_replace_col_cases col old new m :
  OM.replace_column_cluster col old new m =
  match OM.col_memb m !! col with
  | None => Raises KeyError m
  | Some slots =>
      match index_of old slots with
      | None => Raises ValueError m
      | Some k =>
          if int_ok new
          then
            let slots' := <[k := new]> slots in
            let m1 := OM.set_col_memb (<[col := slots']> (OM.col_memb m)) m in
            if decide (old ∉ slots')
            then
              match OM.cluster_cols m !! old with
              | None => Raises KeyError m1
              | Some cols =>
                  if decide (col ∈ cols)
                  then
                    let i1 := <[old := cols ∖ {[col]}]> (OM.cluster_cols m) in
                    Returns tt (OM.set_cluster_cols
                                  (<[new := default ∅ (i1 !! new) ∪ {[col]}]> i1) m1)
                  else Raises KeyError m1
              end
            else
              Returns tt (OM.set_cluster_cols
                            (<[new := OM.columns_for_cluster m new ∪ {[col]}]>
                               (OM.cluster_cols m)) m1)
          else Raises OverflowError m
      end
  end.
Proof.
  unfold OM.replace_column_cluster, OM.store_col_slot, OM.remove_reverse_col.
  destruct m as [cfg f g i j]; run.
  destruct (g !! col) as [slots|] eqn:Hg; simpl; [|done].
  destruct (index_of old slots) as [k|] eqn:Hk; simpl; [|done].
  rewrite Hg; simpl.
  apply index_of_Some in Hk as [Hk _].
  rewrite py_index_nat by (by eapply lookup_lt_Some).
  destruct (int_ok new); simpl; [|done].
  rewrite lookup_insert_eq; simpl.
  destruct (decide (old ∉ <[k:=new]> slots)); simpl.
  - destruct (j !! old) as [cs|] eqn:Hj; simpl; [|done].
    destruct (decide (col ∈ cs)); simpl; [|done].
    by rewrite OM_add_edge_col_eq.
  - by rewrite OM_add_edge_col_eq.
Qed.

Lemma OM_replace_row_consistent row index new m :
  0 < new → OM_row_slot_holds_cluster m row index →
  OM_rows_consistent m →
  OM_rows_consistent (final (OM.replace_row_cluster row index new m)).
Proof.
  intros Hnew Hslot Hc.
  pose proof (proj1 (OM_rows_consistent_iff m) Hc) as Hs.
  rewrite OM_replace_row_cases.
  destruct (OM.row_memb m !! row) as [slots|] eqn:Hf; [|done].
  destruct (decide (new ∉ OM.clusters_of slots)); [|done].
  destruct (py_index (length slots) index) as [k|] eqn:Hk; [|done].
  specialize (Hslot slots k Hf Hk).
  assert (Hlt : (k < length slots)%nat) by (by eapply py_index_lt).
  destruct (lookup_lt_is_Some_2 slots k Hlt) as [old Hold].
  rewrite Hold in *; simpl in Hslot.
  destruct (int_ok new); [|done]. simpl.
  assert (Hrow_old : row ∈ default ∅ (OM.cluster_rows m !! old)).
  { apply Hs. exists slots. split_and!; [done| |done].
    by eapply list_elem_of_lookup_2. }
  pose proof (slots_consistent_replace _ _ row slots k old new Hs Hf Hold Hslot Hnew)
    as Hfinal. simpl in Hfinal.
  destruct (decide (old ∉ <[k:=new]> slots)) as [Hn|Hn].
  - destruct (OM.cluster_rows m !! old) as [rs|] eqn:Hi; [|set_solver].
    simpl in Hrow_old. destruct (decide (row ∈ rs)); [|done].
    apply OM_rows_consistent_iff. exact Hfinal.
  - apply OM_rows_consistent_iff. exact Hfinal.
Qed.

Lemma OM_replace_col_consistent col old new m :
  0 < old → 0 < new →
  OM_cols_consistent m →
  OM_cols_consistent (final (OM.replace_column_cluster col old new m)).
Proof.
  intros Hold Hnew Hc.
  pose proof (proj1 (OM_cols_consistent_iff m) Hc) as Hs.
  rewrite OM_replace_col_cases.
  destruct (OM.col_memb m !! col) as [slots|] eqn:Hf; [|done].
  destruct (index_of old slots) as [k|] eqn:Hk; [|done].
  apply index_of_Some in Hk as [Hk _].
  destruct (int_ok new); [|done]. simpl.
  assert (Hcol_old : col ∈ default ∅ (OM.cluster_cols m !! old)).
  { apply Hs. exists slots. split_and!; [done| |done].
    by eapply list_elem_of_lookup_2. }
  pose proof (slots_consistent_replace _ _ col slots k old new Hs Hf Hk Hold Hnew)
    as Hfinal. simpl in Hfinal.
  destruct (decide (old ∉ <[k:=new]> slots)) as [Hn|Hn].
  - destruct (OM.cluster_cols m !! old) as [cs|] eqn:Hi; [|set_solver].
    simpl in Hcol_old. destruct (decide (col ∈ cs)); [|done].
    apply OM_cols_consistent_iff. exact Hfinal.
  - apply OM_cols_consistent_iff. exact Hfinal.
Qed.

(** Row operations of the slot-based store leave the column side alone. *)

Lemma OM_add_row_frame row cluster force g j :
  preserves (OM_cols_are g j) (OM.add_cluster_to_row row cluster force).
Proof.
  intros m [<- <-]. rewrite OM_add_row_cases. cbv zeta.
  by repeat (case_match; simpl).
Qed.




Lemma OM_rows_consistent_ext m m' :
  OM_rows_are (OM.row_memb m) (OM.cluster_rows m) m' →
  OM_rows_consistent m → OM_rows_consistent m'.
Proof.
  intros [E1 E2] Hc. apply OM_rows_consistent_iff. rewrite E1, E2.
  by apply OM_rows_consistent_iff.
Qed.

Lemma OM_cols_consistent_ext m m' :
  OM_cols_are (OM.col_memb m) (OM.cluster_cols m) m' →
  OM_cols_consistent m → OM_cols_consistent m'.
Proof.
  intros [E1 E2] Hc. apply OM_cols_consistent_iff. rewrite E1, E2.
  by apply OM_cols_consistent_iff.
Qed.

(** ** The stores built by the constructors are consistent *)

Lemma CM_create_cluster_to_names_map_spec (fwd : gmap string (gset Z)) c r :
  r ∈ default ∅ (CM.create_cluster_to_names_map fwd !! c)
  ↔ ∃ clusters, fwd !! r = Some clusters ∧ c ∈ clusters.
Proof.
  revert c r. unfold CM.create_cluster_to_names_map.
  apply (map_fold_weak_ind
           (λ result (m : gmap string (gset Z)), ∀ c r,
              r ∈ default ∅ (result !! c) ↔ ∃ clusters, m !! r = Some clusters ∧ c ∈ clusters)).
  - intros c r. rewrite lookup_empty. simpl. split; [set_solver|].
    intros (cl & Hl & _). by rewrite lookup_empty in Hl.
  - intros name clusters m result Hfresh IH.
    assert (Hinner : ∀ c r,
      r ∈ default ∅ (set_fold (λ cluster result,
            let result := match result !! cluster with
                          | None => <[cluster := ∅]> result
                          | Some _ => result
                          end in
            <[cluster := default ∅ (result !! cluster) ∪ {[name]}]> result)
          result clusters !! c)
      ↔ r ∈ default ∅ (result !! c) ∨ (r = name ∧ c ∈ clusters)).
    { apply (set_fold_ind_L
               (λ res (X : gset Z), ∀ c r,
                  r ∈ default ∅ (res !! c)
                  ↔ r ∈ default ∅ (result !! c) ∨ (r = name ∧ c ∈ X))).
      - set_solver.
      - intros x X res Hx IHX c r. simpl.
        destruct (decide (c = x)) as [->|Hne].
        + rewrite lookup_insert_eq. simpl.
          destruct (res !! x) as [rs|] eqn:Hres; simpl.
          * rewrite Hres. simpl. rewrite elem_of_union, elem_of_singleton.
            specialize (IHX x r). rewrite Hres in IHX. simpl in IHX.
            rewrite IHX. set_solver.
          * rewrite lookup_insert_eq. simpl.
            specialize (IHX x r). rewrite Hres in IHX. simpl in IHX.
            set_solver.
        + rewrite lookup_insert_ne by done.
          destruct (res !! x) as [rs|] eqn:Hres; simpl.
          * rewrite IHX. set_solver.
          * rewrite lookup_insert_ne by done. rewrite IHX. set_solver. }
    intros c r. rewrite Hinner, IH.
    destruct (decide (r = name)) as [->|Hne].
    + rewrite lookup_insert_eq. split.
      * intros [(cl & Hl & _)|[_ Hc]]; [congruence|]. by exists clusters.
      * intros (cl & [= <-] & Hc). by right.
    + rewrite lookup_insert_ne by done. naive_solver.
Qed.

Lemma CM_init_consistent rows cols cfg : CM_consistent (CM.init rows cols cfg).
Proof.
  split; intros r c; cm_unfold; rewrite CM_create_cluster_to_names_map_spec.
  - destruct (rows !! r) as [cl|]; simpl; [naive_solver|].
    split; [set_solver|]. by intros (? & ? & _).
  - destruct (cols !! r) as [cl|]; simpl; [naive_solver|].
    split; [set_solver|]. by intros (? & ? & _).
Qed.

Lemma OM_cluster2names_map_spec (fwd : gmap string (list Z)) :
  slots_consistent fwd (OM.cluster2names_map fwd).
Proof.
  unfold slots_consistent, OM.cluster2names_map.
  apply (map_fold_weak_ind
           (λ result (m : gmap string (list Z)), ∀ r c,
              (∃ slots, m !! r = Some slots ∧ c ∈ slots ∧ 0 < c)
              ↔ r ∈ default ∅ (result !! c))).
  - intros r c. rewrite !lookup_empty. simpl. split; [|set_solver].
    by intros (cl & Hl & _).
  - intros name clusters m result Hfresh IH.
    assert (Hinner : ∀ (l : list Z) (res : gmap Z (gset string)) c r,
      r ∈ default ∅ (foldl (λ (result : gmap Z (gset string)) cluster,
            if decide (0 < cluster)
            then
              let result := match result !! cluster with
                            | None => <[cluster := ∅]> result
                            | Some _ => result
                            end in
              <[cluster := default ∅ (result !! cluster) ∪ {[name]}]> result
            else result)
          res l !! c)
      ↔ r ∈ default ∅ (res !! c) ∨ (r = name ∧ c ∈ l ∧ 0 < c)).
    { induction l as [|x l IHl]; intros res c r; simpl.
      - set_solver.
      - rewrite IHl, elem_of_cons. destruct (decide (0 < x)) as [Hx|Hx].
        + destruct (decide (c = x)) as [->|Hne].
          * rewrite lookup_insert_eq. simpl.
            destruct (res !! x) as [rs|] eqn:Hres; simpl.
            -- rewrite Hres. simpl. set_solver.
            -- rewrite lookup_insert_eq. simpl. set_solver.
          * rewrite lookup_insert_ne by done.
            destruct (res !! x) as [rs|] eqn:Hres; simpl.
            -- naive_solver.
            -- rewrite lookup_insert_ne by done. naive_solver.
        + split; [naive_solver|]. intros [?|(-> & [->|?] & ?)]; [tauto|lia|tauto]. }
    intros r c. rewrite Hinner, <- IH.
    destruct (decide (r = name)) as [->|Hne].
    + rewrite lookup_insert_eq. split.
      * intros (cl & [= <-] & Hc). by right.
      * intros [(cl & Hl & _)|[_ Hc]]; [congruence|]. by exists clusters.
    + rewrite lookup_insert_ne by done. naive_solver.
Qed.

Lemma OM_init_consistent rows cols cfg : OM_consistent (OM.init rows cols cfg).
Proof.
  split.
  - apply OM_rows_consistent_iff. apply OM_cluster2names_map_spec.
  - apply OM_cols_consistent_iff. apply OM_cluster2names_map_spec.
Qed.

(** ** Forward and inverse maps stay consistent *)



(** ** Removing a cluster a row does not hold *)

(** C10. In ClusterMembership, remove_cluster_from_row(row, c) for a row
    that is a key of the forward map but does not hold [c] raises KeyError,
    and neither the forward nor the inverse map has changed. *)
Theorem remove_cluster_not_held_raises (m : CM.t) (row : string) (cluster : Z)
    (clusters : gset Z) :
  CM.row_is_member_of m !! row = Some clusters →
  cluster ∉ clusters →
  CM.remove_cluster_from_row row cluster m = Raises KeyError m.
Proof.
  intros Hrow Hc. unfold CM.remove_cluster_from_row; run.
  rewrite Hrow. by destruct (decide (cluster ∈ clusters)).
Qed.

Lemma remove_cluster_not_held_raises_witness :
  CM.remove_cluster_from_row "g1" 2 sample_cm = Raises KeyError sample_cm.
Proof.
  apply (remove_cluster_not_held_raises sample_cm "g1" 2 {[ 1 ]}).
  - vm_compute. reflexivity.
  - apply not_elem_of_singleton. lia.
Defined.

(** ** Lookups of unknown rows, columns and clusters *)

(** C4 as stated fails for the set-based store: the lookup of a row that is
    not a key of the forward map returns the empty set. *)
Lemma unknown_row_lookup_counterexample :
  CM.row_is_member_of sample_cm !! "g9"%string = None ∧
  CM.clusters_for_row sample_cm "g9" = ∅.
Proof. split; vm_compute; reflexivity. Qed.

(** C4 (amended). For a row or column name that is not a key of the forward
    map, the lookup of OrigMembership raises KeyError while the lookup of
    ClusterMembership returns the empty set; in both stores the members of a
    cluster that is not a key of the inverse map are the empty set. *)
Theorem unknown_lookups (m : CM.t) (o : OM.t) (name : string) (cluster : Z) :
  (OM.row_memb o !! name = None → OM.clusters_for_row name o = Raises KeyError o) ∧
  (OM.col_memb o !! name = None → OM.clusters_for_column name o = Raises KeyError o) ∧
  (CM.row_is_member_of m !! name = None → CM.clusters_for_row m name = ∅) ∧
  (CM.column_is_member_of m !! name = None → CM.clusters_for_column m name = ∅) ∧
  (CM.cluster_row_members m !! cluster = None → CM.rows_for_cluster m cluster = ∅) ∧
  (CM.cluster_column_members m !! cluster = None →
   CM.columns_for_cluster m cluster = ∅) ∧
  (OM.cluster_rows o !! cluster = None → OM.rows_for_cluster o cluster = ∅) ∧
  (OM.cluster_cols o !! cluster = None → OM.columns_for_cluster o cluster = ∅).
Proof.
  unfold OM.clusters_for_row, OM.clusters_for_column, CM.clusters_for_row,
    CM.clusters_for_column, CM.rows_for_cluster, CM.columns_for_cluster,
    OM.rows_for_cluster, OM.columns_for_cluster; run.
  split_and!; by intros ->.
Qed.

Lemma unknown_lookups_witness :
  OM.clusters_for_row "g9" sample_om = Raises KeyError sample_om ∧
  CM.clusters_for_row sample_cm "g9" = ∅ ∧
  CM.rows_for_cluster sample_cm 3 = ∅ ∧
  OM.rows_for_cluster sample_om 3 = ∅.
Proof.
  pose proof (unknown_lookups sample_cm sample_om "g9" 3)
    as (H1 & _ & H3 & _ & H5 & _ & H7 & _).
  split_and!.
  - apply H1. vm_compute. reflexivity.
  - apply H3. vm_compute. reflexivity.
  - apply H5. vm_compute. reflexivity.
  - apply H7. vm_compute. reflexivity.
Defined.

(** ** Replacing a cluster *)

Lemma CM_replace_row_cluster_noop m row cluster replacement :
  cluster = replacement ∨ row ∈ CM.rows_for_cluster m replacement →
  CM.replace_row_cluster row cluster replacement m = Returns tt m.
Proof.
  intros H. unfold CM.replace_row_cluster, CM.is_row_in_cluster; run.
  destruct H as [->|H].
  - by rewrite bool_decide_eq_false_2 by (by intros []).
  - rewrite (bool_decide_eq_true_2 (row ∈ _)) by done.
    by rewrite andb_false_r.
Qed.

Lemma CM_replace_column_cluster_noop m column cluster replacement :
  cluster = replacement ∨ column ∈ CM.columns_for_cluster m replacement →
  CM.replace_column_cluster column cluster replacement m = Returns tt m.
Proof.
  intros H. unfold CM.replace_column_cluster, CM.is_column_in_cluster; run.
  destruct H as [->|H].
  - by rewrite bool_decide_eq_false_2 by (by intros []).
  - rewrite (bool_decide_eq_true_2 (column ∈ _)) by done.
    by rewrite andb_false_r.
Qed.

Lemma OM_replace_row_cluster_noop m row index new held :
  OM.clusters_for_row row m = Returns held m → new ∈ held →
  OM.replace_row_cluster row index new m = Returns tt m.
Proof.
  intros Hheld Hnew. unfold OM.replace_row_cluster; run. rewrite Hheld.
  by destruct (decide (new ∉ held)).
Qed.

(** C5. replace_column_cluster of OrigMembership has no guard for a
    replacement the column already holds: replacing cluster 1 by cluster 2
    in a column that holds both overwrites the slot of 1, so the column ends
    with the slots [2; 2] and leaves cluster 1, where the claim (and the
    guard of the three sibling replace operations) leaves the store as it
    was. *)
Theorem replace_column_cluster_held_replacement :
  OM_col_holds two_cluster_column "c1" 2 ∧
  ∃ o', OM.replace_column_cluster "c1" 1 2 two_cluster_column = Returns tt o' ∧
        o' ≠ two_cluster_column ∧
        OM.col_memb o' !! "c1"%string = Some [2; 2] ∧
        "c1"%string ∉ OM.columns_for_cluster o' 1.
Proof.
  split.
  - exists {[ 1; 2 ]}. split; [vm_compute; reflexivity | set_solver].
  - eexists. split; [vm_compute; reflexivity|]. split_and!.
    + intros E. apply (f_equal (λ o, OM.col_memb o !! "c1"%string)) in E.
      vm_compute in E. discriminate E.
    + vm_compute. reflexivity.
    + vm_compute. set_solver.
Qed.

(** ** The checked add and the capacity of a row or column *)











(** ** Checkpoints *)

(** C8 as stated fails for OrigMembership: the constructor used by
    restore_from_checkpoint keeps clusters_per_row slots of every row, so a
    row extended by a forced add comes back without its last cluster. *)
Lemma checkpoint_roundtrip_counterexample :
  OM_consistent forced_row_om ∧
  ∃ shelf' restored,
    OM.store_checkpoint_data forced_row_om fresh_om_shelf = inr shelf' ∧
    OM.restore_from_checkpoint (OM.config_params forced_row_om) shelf' = inr restored ∧
    value (OM.clusters_for_row "g1" restored)
    ≠ value (OM.clusters_for_row "g1" forced_row_om).
Proof.
  split.
  - unfold forced_row_om. split.
    + apply OM_add_row_consistent; [lia|]. apply OM_init_consistent.
    + eapply OM_cols_consistent_ext;
        [|apply (OM_init_consistent {[ "g1"%string := [1; 3] ]} ∅ sample_config)].
      by apply OM_add_row_frame.
  - do 2 eexists. split_and!; [reflexivity..|].
    intros E. vm_compute in E. discriminate E.
Qed.

Lemma pad_slots_clusters per slots :
  (length slots ≤ per)%nat → ∀ c, 0 < c → c ∈ OM.pad_slots per slots ↔ c ∈ slots.
Proof.
  intros Hlen c Hc. unfold OM.pad_slots. rewrite take_ge by done.
  rewrite elem_of_app, elem_of_replicate. split; [|by left].
  intros [?|[? _]]; [done|lia].
Qed.

Lemma OM_restored_rows (f : gmap string (list Z)) (i : gmap Z (gset string)) per :
  slots_consistent f i →
  (∀ name slots, f !! name = Some slots → (length slots ≤ per)%nat) →
  (∀ name, OM.clusters_of <$> (OM.pad_slots per <$> f) !! name
           = OM.clusters_of <$> f !! name) ∧
  (∀ cluster, default ∅ (OM.cluster2names_map (OM.pad_slots per <$> f) !! cluster)
              = default ∅ (i !! cluster)).
Proof.
  intros Hc Hlen. split.
  - intros name. rewrite lookup_fmap.
    destruct (f !! name) as [slots|] eqn:Hf; simpl; [|done]. f_equal.
    apply set_eq. intros c. rewrite !elem_of_clusters_of.
    split; intros [Hin Hpos]; (split; [|done]);
      by apply (pad_slots_clusters per slots (Hlen _ _ Hf) c Hpos).
  - intros cluster. apply set_eq. intros r.
    rewrite <- (OM_cluster2names_map_spec _ r cluster), <- (Hc r cluster).
    rewrite lookup_fmap. destruct (f !! r) as [slots|] eqn:Hf; simpl.
    + split; intros (s & [= <-] & Hin & Hpos); eexists; (split_and!; [done| |done]);
        by apply (pad_slots_clusters per slots (Hlen _ _ Hf) cluster Hpos).
    + split; by intros (s & ? & _).
Qed.

(** C8 (amended). Storing a consistent membership in a shelf that carries
    the iteration number and restoring it with the same configuration
    succeeds and gives a store on which clusters_for_row,
    clusters_for_column, rows_for_cluster and columns_for_cluster agree with
    the original for every row, column and cluster; for OrigMembership this
    holds when no row or column has more than clusters_per_row (resp.
    clusters_per_col) slots, that is, before forced adds. *)
Theorem checkpoint_roundtrip (m : CM.t) (o : OM.t)
    (shelf_cm : CM.Shelf) (shelf_om : OM.Shelf) :
  (CM_consistent m → is_Some (CM.shelf_iteration shelf_cm) →
   ∃ shelf' m',
     CM.store_checkpoint_data m shelf_cm = inr shelf' ∧
     CM.restore_from_checkpoint (CM.config_params m) shelf' = inr m' ∧
     ∀ name cluster,
       CM.clusters_for_row m' name = CM.clusters_for_row m name ∧
       CM.clusters_for_column m' name = CM.clusters_for_column m name ∧
       CM.rows_for_cluster m' cluster = CM.rows_for_cluster m cluster ∧
       CM.columns_for_cluster m' cluster = CM.columns_for_cluster m cluster) ∧
  (OM_consistent o → is_Some (OM.shelf_iteration shelf_om) →
   (∀ name slots, OM.row_memb o !! name = Some slots →
                  (length slots ≤ OM.num_clusters_per_row o)%nat) →
   (∀ name slots, OM.col_memb o !! name = Some slots →
                  (length slots ≤ OM.num_clusters_per_column o)%nat) →
   ∃ shelf' o',
     OM.store_checkpoint_data o shelf_om = inr shelf' ∧
     OM.restore_from_checkpoint (OM.config_params o) shelf' = inr o' ∧
     ∀ name cluster,
       value (OM.clusters_for_row name o') = value (OM.clusters_for_row name o) ∧
       value (OM.clusters_for_column name o') = value (OM.clusters_for_column name o) ∧
       OM.rows_for_cluster o' cluster = OM.rows_for_cluster o cluster ∧
       OM.columns_for_cluster o' cluster = OM.columns_for_cluster o cluster).
Proof.
  split.
  - intros [Hr Hc] [it Hit]. unfold CM.store_checkpoint_data. rewrite Hit.
    do 2 eexists. split_and!; [reflexivity..|].
    intros name cluster. split_and!; [done|done| |].
    + apply set_eq. intros r. rewrite <- (Hr r cluster). cm_unfold.
      rewrite CM_create_cluster_to_names_map_spec.
      destruct (CM.row_is_member_of m !! r) as [cl|]; simpl; [naive_solver|].
      split; [by intros (? & ? & _)|set_solver].
    + apply set_eq. intros r. rewrite <- (Hc r cluster). cm_unfold.
      rewrite CM_create_cluster_to_names_map_spec.
      destruct (CM.column_is_member_of m !! r) as [cl|]; simpl; [naive_solver|].
      split; [by intros (? & ? & _)|set_solver].
  - intros [Hr Hc] [it Hit] Hrows Hcols. unfold OM.store_checkpoint_data.
    rewrite Hit. do 2 eexists. split_and!; [reflexivity..|].
    apply OM_rows_consistent_iff in Hr. apply OM_cols_consistent_iff in Hc.
    destruct (OM_restored_rows _ _ _ Hr Hrows) as [Hr1 Hr2].
    destruct (OM_restored_rows _ _ _ Hc Hcols) as [Hc1 Hc2].
    intros name cluster. split_and!.
    + unfold OM.clusters_for_row; run. specialize (Hr1 name).
      unfold OM.num_clusters_per_row in Hr1.
      destruct (_ !! name), (_ !! name); simpl in *; congruence.
    + unfold OM.clusters_for_column; run. specialize (Hc1 name).
      unfold OM.num_clusters_per_column in Hc1.
      destruct (_ !! name), (_ !! name); simpl in *; congruence.
    + apply Hr2.
    + apply Hc2.
Qed.

Lemma checkpoint_roundtrip_witness :
  (∃ shelf' m',
     CM.store_checkpoint_data sample_cm fresh_cm_shelf = inr shelf' ∧
     CM.restore_from_checkpoint (CM.config_params sample_cm) shelf' = inr m' ∧
     ∀ name cluster,
       CM.clusters_for_row m' name = CM.clusters_for_row sample_cm name ∧
       CM.clusters_for_column m' name = CM.clusters_for_column sample_cm name ∧
       CM.rows_for_cluster m' cluster = CM.rows_for_cluster sample_cm cluster ∧
       CM.columns_for_cluster m' cluster = CM.columns_for_cluster sample_cm cluster) ∧
  (∃ shelf' o',
     OM.store_checkpoint_data sample_om fresh_om_shelf = inr shelf' ∧
     OM.restore_from_checkpoint (OM.config_params sample_om) shelf' = inr o' ∧
     ∀ name cluster,
       value (OM.clusters_for_row name o') = value (OM.clusters_for_row name sample_om) ∧
       value (OM.clusters_for_column name o')
       = value (OM.clusters_for_column name sample_om) ∧
       OM.rows_for_cluster o' cluster = OM.rows_for_cluster sample_om cluster ∧
       OM.columns_for_cluster o' cluster = OM.columns_for_cluster sample_om cluster).
Proof.
  destruct (checkpoint_roundtrip sample_cm sample_om fresh_cm_shelf fresh_om_shelf)
    as [Hcm Hom].
  split.
  - apply Hcm; [apply CM_init_consistent | by eexists].
  - apply Hom; [apply OM_init_consistent | by eexists | |].
    + intros name slots. unfold sample_om, OM.init. simpl.
      rewrite lookup_fmap. intros Hl.
      destruct (decide (name = "g1"%string)) as [->|Hne].
      * rewrite lookup_singleton_eq in Hl. injection Hl as <-. vm_compute. lia.
      * rewrite lookup_singleton_ne in Hl by done. discriminate Hl.
    + intros name slots. unfold sample_om, OM.init. simpl.
      rewrite lookup_fmap. intros Hl.
      destruct (decide (name = "c1"%string)) as [->|Hne].
      * rewrite lookup_singleton_eq in Hl. injection Hl as <-. vm_compute. lia.
      * rewrite lookup_singleton_ne in Hl by done. discriminate Hl.
Defined.

(** ** Density fallback *)






(** ** Post-adjustment *)


(** ** Comparing scores *)



Lemma Qcompare_diag x : (x ?= x)%Q = Eq.
Proof. apply Qeq_alt. reflexivity. Qed.

Lemma pair_ltb_false_le x y : pair_ltb x y = false → (y.1 <= x.1)%Q.
Proof.
  unfold pair_ltb. destruct (x.1 ?= y.1)%Q eqn:E; [| done |].
  - intros _. apply Qeq_alt in E. rewrite E. apply Qle_refl.
  - intros _. apply Qgt_alt in E. by apply Qlt_le_weak.
Qed.

(* x < z and not y < z give x < y *)
Lemma pair_ltb_trans_neg x y z :
  pair_ltb x z = true → pair_ltb y z = false → pair_ltb x y = true.
Proof.
  unfold pair_ltb.
  destruct (x.1 ?= z.1)%Q eqn:Exz; [| |done];
    destruct (y.1 ?= z.1)%Q eqn:Eyz; try done;
    destruct (x.1 ?= y.1)%Q eqn:Exy; try done;
    rewrite <- ?Qeq_alt, <- ?Qlt_alt, <- ?Qgt_alt in *;
    rewrite ?Z.ltb_lt, ?Z.ltb_ge; intros; try lia; try lra.
Qed.

Lemma sorted_reverse_nil l : sorted_reverse l = [] ↔ l = [].
Proof.
  split; [|by intros ->]. destruct l as [|x l]; [done|]. simpl.
  destruct (sorted_reverse l) as [|y s]; simpl; [done|]. by case_match.
Qed.

(* the first element of sorted(l, reverse=True) is a largest element of l *)
Lemma sorted_reverse_head l h rest :
  sorted_reverse l = h :: rest →
  h ∈ l ∧ ∀ y, y ∈ l → pair_ltb h y = false.
Proof.
  revert h rest. induction l as [|x l IH]; intros h rest; [done|]. simpl.
  destruct (sorted_reverse l) as [|y s] eqn:Hs; simpl.
  - apply sorted_reverse_nil in Hs as ->. intros [= <- <-]. split; [left|].
    intros y [->|Hy]%elem_of_cons; [|by apply elem_of_nil in Hy].
    unfold pair_ltb. rewrite Qcompare_diag. apply Z.ltb_irrefl.
  - destruct (IH y s eq_refl) as [Hin Hmax].
    destruct (pair_ltb x y) eqn:Hxy; intros [= <- <-].
    + split; [by right|]. intros z [->|Hz]%elem_of_cons; [|by apply Hmax].
      destruct (pair_ltb y x) eqn:Hyx; [|done]. exfalso.
      revert Hxy Hyx. unfold pair_ltb.
      destruct (x.1 ?= y.1)%Q eqn:E1; rewrite <- (Qcompare_antisym x.1 y.1), E1;
        simpl; try done.
      rewrite !Z.ltb_lt. lia.
    + split; [left|]. intros z [->|Hz]%elem_of_cons.
      * unfold pair_ltb. rewrite Qcompare_diag. apply Z.ltb_irrefl.
      * destruct (pair_ltb x z) eqn:Hxz; [|done].
        rewrite (pair_ltb_trans_neg x y z Hxz (Hmax z Hz)) in Hxy. done.
Qed.

(* what replace_delta_*_member reads off the sorted deltas *)
Lemma deltas_for_head scores name cluster (current : gset Z) :
  let delta c := (cell scores name cluster - cell scores name c)%Q in
  match deltas_for scores name cluster current with
  | [] => current = ∅
  | (d, old) :: _ =>
      d = delta old ∧ old ∈ current ∧ ∀ c, c ∈ current → (delta c <= delta old)%Q
  end.
Proof.
  intros delta. unfold deltas_for.
  destruct (sorted_reverse _) as [|[d old] rest] eqn:Hs.
  - apply (proj1 (sorted_reverse_nil _)), List.map_eq_nil in Hs.
    apply elements_empty_inv in Hs. by apply leibniz_equiv.
  - apply sorted_reverse_head in Hs as [Hin Hmax].
    apply list_elem_of_In, List.in_map_iff in Hin as (c0 & [= <- <-] & Hc0).
    apply list_elem_of_In, elem_of_elements in Hc0. split_and!; [done..|].
    intros c Hc. apply (pair_ltb_false_le (delta c0, c0) (delta c, c)).
    apply Hmax. apply list_elem_of_In, List.in_map_iff. exists c.
    split; [done|]. by apply list_elem_of_In, elem_of_elements.
Qed.

(** ** The replacement step *)

Lemma CM_remove_row_eq m row cluster current rows :
  CM.row_is_member_of m !! row = Some current → cluster ∈ current →
  CM.cluster_row_members m !! cluster = Some rows → row ∈ rows →
  CM.remove_cluster_from_row row cluster m =
  Returns tt
    (CM.set_cluster_row_members
       (<[cluster := rows ∖ {[row]}]> (CM.cluster_row_members m))
       (CM.set_row_is_member_of
          (<[row := current ∖ {[cluster]}]> (CM.row_is_member_of m)) m)).
Proof.
  intros Hf Hc Hi Hr. unfold CM.remove_cluster_from_row; run.
  rewrite Hf. destruct (decide (cluster ∈ current)); [|done]. simpl.
  rewrite Hi. by destruct (decide (row ∈ rows)).
Qed.

Lemma CM_remove_col_eq m col cluster current cols :
  CM.column_is_member_of m !! col = Some current → cluster ∈ current →
  CM.cluster_column_members m !! cluster = Some cols → col ∈ cols →
  CM.remove_cluster_from_column col cluster m =
  Returns tt
    (CM.set_column_is_member_of
       (<[col := current ∖ {[cluster]}]> (CM.column_is_member_of m))
       (CM.set_cluster_column_members
          (<[cluster := cols ∖ {[col]}]> (CM.cluster_column_members m)) m)).
Proof.
  intros Hf Hc Hi Hr. unfold CM.remove_cluster_from_column; run.
  rewrite Hi. destruct (decide (col ∈ cols)); [|done]. simpl.
  rewrite Hf. by destruct (decide (cluster ∈ current)).
Qed.





Lemma OM_replace_delta_col_eq o col cand scores slots :
  OM.col_memb o !! col = Some slots →
  replace_delta_column_member2 col cand scores o =
  match deltas_for scores col cand (OM.clusters_of slots) with
  | (d, c) :: _ =>
      if Qpositive d
      then bind (OM.replace_column_cluster col c cand) (λ _, ret c) o
      else Returns 0 o
  | [] => Returns 0 o
  end.
Proof.
  intros Hf. unfold replace_delta_column_member2, OM.clusters_for_column.
  unfold bind at 1. unfold bind at 1. unfold get at 1. rewrite Hf.
  unfold ret at 1. by repeat case_match.
Qed.





(** *** The slot-wise deltas of replace_delta_row_member2 *)









(** ** Filling a free slot *)

(* the first element that passes a filter over a list sorted by [R] *)
Lemma filter_head_sorted {A} (R : A → A → Prop) (P : A → Prop)
    `{∀ x, Decision (P x)} (l : list A) x rest :
  StronglySorted R l → filter P l = x :: rest →
  x ∈ l ∧ P x ∧ ∀ y, y ∈ l → P y → y = x ∨ R x y.
Proof.
  induction l as [|a l IH]; intros Hs Hf; [done|].
  apply StronglySorted_inv in Hs as [Hs Ha].
  rewrite filter_cons in Hf. destruct (decide (P a)) as [HPa|HPa].
  - injection Hf as -> Hrest. split_and!; [left|done|].
    intros y [->|Hy]%elem_of_cons _; [by left|right].
    rewrite list.Forall_forall in Ha. by apply Ha.
  - destruct (IH Hs Hf) as (Hin & HPx & Hall). split_and!; [by right|done|].
    intros y [->|Hy]%elem_of_cons HPy; [done|by apply Hall].
Qed.

Lemma changes_S {S} n (step : list Z → M S (list Z)) clusters :
  changes (Datatypes.S n) step clusters
  = bind (step clusters) (λ clusters', changes n step clusters').
Proof. reflexivity. Qed.

Lemma CM_row_change_add m row c0 rest scores :
  (CM.num_clusters_for_row m row < CM.num_clusters_per_row m)%nat →
  ∃ m', CM.add_cluster_to_row row c0 m = Returns tt m' ∧
        row_change scores row (c0 :: rest) m = Returns rest m' ∧
        CM.clusters_for_row m' row = CM.clusters_for_row m row ∪ {[c0]}.
Proof.
  intros Hlt. unfold row_change, CM.add_cluster_to_row; run.
  repeat case_decide; try lia.
  rewrite CM_add_row_unchecked_eq. eexists. split_and!; [done..|].
  cm_unfold. by rewrite lookup_insert_eq.
Qed.

Lemma CM_col_change_add m col c0 rest scores :
  (CM.num_clusters_for_column m col < CM.num_clusters_per_column m)%nat →
  ∃ m', CM.add_cluster_to_column col c0 m = Returns tt m' ∧
        col_change scores col (c0 :: rest) m = Returns rest m' ∧
        CM.clusters_for_column m' col = CM.clusters_for_column m col ∪ {[c0]}.
Proof.
  intros Hlt. unfold col_change, CM.add_cluster_to_column; run.
  repeat case_decide; try lia.
  rewrite CM_add_col_unchecked_eq. eexists. split_and!; [done..|].
  cm_unfold. by rewrite lookup_insert_eq.
Qed.

Lemma CM_clusters_not_in_row_head m row best c0 rest (score : Z → Q) :
  CM.clusters_not_in_row row best m = Returns (c0 :: rest) m →
  StronglySorted (λ a b, (score b <= score a)%Q) best →
  c0 ∈ best ∧ (c0 ∉ CM.clusters_for_row m row) ∧
  (∀ c, c ∈ best → c ∉ CM.clusters_for_row m row → (score c <= score c0)%Q).
Proof.
  unfold CM.clusters_not_in_row, CM.clusters_for_row; run.
  destruct (CM.row_is_member_of m !! row) as [held|]; simpl.
  - intros [= Hf] Hs.
    destruct (filter_head_sorted _ _ _ _ _ Hs Hf) as (Hin & Hn & Hall).
    split_and!; [done..|]. intros c Hc Hnc.
    destruct (Hall c Hc Hnc) as [->|Hle]; [apply Qle_refl|done].
  - by destruct best.
Qed.

Lemma CM_clusters_not_in_column_head m col best c0 rest (score : Z → Q) :
  CM.clusters_not_in_column col best m = Returns (c0 :: rest) m →
  StronglySorted (λ a b, (score b <= score a)%Q) best →
  c0 ∈ best ∧ (c0 ∉ CM.clusters_for_column m col) ∧
  (∀ c, c ∈ best → c ∉ CM.clusters_for_column m col → (score c <= score c0)%Q).
Proof.
  unfold CM.clusters_not_in_column, CM.clusters_for_column; run.
  destruct (CM.column_is_member_of m !! col) as [held|]; simpl.
  - intros [= Hf] Hs.
    destruct (filter_head_sorted _ _ _ _ _ Hs Hf) as (Hin & Hn & Hall).
    split_and!; [done..|]. intros c Hc Hnc.
    destruct (Hall c Hc Hnc) as [->|Hle]; [apply Qle_refl|done].
  - by destruct best.
Qed.

Lemma OM_row_change2_free_slot o row clusters slots i take scores :
  OM.row_memb o !! row = Some slots →
  index_of 0 slots = Some i →
  clusters !! i = Some take →
  (take ∈ OM.clusters_of slots → row_change2 scores row clusters o = Returns tt o) ∧
  (take ∉ OM.clusters_of slots → int_ok take = true →
   ∃ o', OM.add_cluster_to_row row take false o = Returns tt o' ∧
         row_change2 scores row clusters o = Returns tt o' ∧
         OM.row_memb o' !! row = Some (<[i := take]> slots)).
Proof.
  intros Hf Hi Htake.
  assert (E : row_change2 scores row clusters o =
              if decide (take ∉ OM.clusters_of slots)
              then try_except (OM.add_cluster_to_row row take false)
                              (replace_delta_row_member2 row clusters scores) o
              else Returns tt o).
  { unfold row_change2. destruct clusters as [|c0 cl]; [done|].
    unfold try_except, OM.first_free_slot_for_row, OM.clusters_for_row.
    unfold bind at 1. unfold bind at 1. unfold get at 1. rewrite Hf, Hi.
    unfold ret at 1. rewrite Htake.
    unfold bind at 1. unfold bind at 1. unfold get at 1. rewrite Hf.
    unfold ret at 1. by destruct (decide _). }
  rewrite !E. split.
  - intros Hin. by destruct (decide _).
  - intros Hnin Hint. destruct (decide _); [|done].
    unfold try_except. rewrite OM_add_row_cases, Hf, Hi, Hint.
    eexists. split_and!; [done..|]. simpl. by rewrite lookup_insert_eq.
Qed.

(** C3 as stated fails for the row updater of OrigMembership: row g1 holds
    one cluster of two, its candidates sorted by cluster number are 3 and 5,
    and the candidate taken is the one at the index of the free slot, which
    is the held cluster 5; nothing is assigned although 3 is not held, and
    the second change of the same pass does the same. *)
Lemma free_slot_counterexample :
  value (OM.num_clusters_for_row "g1" held_best_om) = inr 1%nat ∧
  get_best_clusters held_best_order held_best_scores 2 true "g1" = [3; 5] ∧
  value (OM.clusters_not_in_row "g1" [3; 5] held_best_om) = inr [3] ∧
  update_for_rows2 held_best_order held_best_scores (λ _, 0%Q) held_best_om
  = Returns tt held_best_om.
Proof. split_and!; vm_compute; reflexivity. Qed.

(** C3 (amended). In update_for_rows and update_for_cols (ClusterMembership),
    for a row or column the gate lets through that holds fewer than
    clusters_per_row (clusters_per_col) clusters and has a non-empty list of
    candidates (its best clusters that it does not hold, taken best first),
    the first change adds the first candidate through the checked add and
    removes it from the list; that candidate scores at least as high as
    every best cluster the row does not hold.  In update_for_rows2
    (OrigMembership) the candidate taken is the one at the index of the
    first free slot in the list of best clusters sorted by cluster number:
    it is added through the checked add when the row does not hold it,
    nothing is assigned when the row holds it, and the list is the same for
    every change. *)
Theorem free_slot_assignment (m : CM.t) (o : OM.t) (name : string)
    (scores : DataMatrix Q) (best : list Z) (change_prob u : Q) (n : nat) :
  seeing_change change_prob u = true →
  (∀ c0 rest,
     CM.clusters_not_in_row name best m = Returns (c0 :: rest) m →
     (CM.num_clusters_for_row m name < CM.num_clusters_per_row m)%nat →
     StronglySorted (λ a b, (cell scores name b <= cell scores name a)%Q) best →
     ∃ m',
       CM.add_cluster_to_row name c0 m = Returns tt m' ∧
       update_row scores best (S n) change_prob u name m
       = bind (changes n (row_change scores name) rest) (λ _, ret tt) m' ∧
       CM.clusters_for_row m' name = CM.clusters_for_row m name ∪ {[c0]} ∧
       c0 ∈ best ∧ (c0 ∉ CM.clusters_for_row m name) ∧
       (∀ c, c ∈ best → c ∉ CM.clusters_for_row m name →
             (cell scores name c <= cell scores name c0)%Q)) ∧
  (∀ c0 rest,
     CM.clusters_not_in_column name best m = Returns (c0 :: rest) m →
     (CM.num_clusters_for_column m name < CM.num_clusters_per_column m)%nat →
     StronglySorted (λ a b, (cell scores name b <= cell scores name a)%Q) best →
     ∃ m',
       CM.add_cluster_to_column name c0 m = Returns tt m' ∧
       update_col scores best (S n) change_prob u name m
       = bind (changes n (col_change scores name) rest) (λ _, ret tt) m' ∧
       CM.clusters_for_column m' name = CM.clusters_for_column m name ∪ {[c0]} ∧
       c0 ∈ best ∧ (c0 ∉ CM.clusters_for_column m name) ∧
       (∀ c, c ∈ best → c ∉ CM.clusters_for_column m name →
             (cell scores name c <= cell scores name c0)%Q)) ∧
  (∀ slots i take,
     OM.row_memb o !! name = Some slots →
     index_of 0 slots = Some i →
     best !! i = Some take →
     update_row2 scores best (S n) change_prob u name o
     = bind (row_change2 scores name best)
            (λ _, for_each (seq 1 n) (λ _, row_change2 scores name best)) o ∧
     (take ∈ OM.clusters_of slots →
      row_change2 scores name best o = Returns tt o) ∧
     (take ∉ OM.clusters_of slots → int_ok take = true →
      ∃ o', OM.add_cluster_to_row name take false o = Returns tt o' ∧
            row_change2 scores name best o = Returns tt o' ∧
            OM.row_memb o' !! name = Some (<[i := take]> slots))).
Proof.
  intros Hgate. split_and!.
  - intros c0 rest Hcl Hlt Hs.
    destruct (CM_row_change_add m name c0 rest scores Hlt) as (m' & Hadd & Hch & Hm').
    destruct (CM_clusters_not_in_row_head m name best c0 rest (cell scores name) Hcl Hs)
      as (Hin & Hnot & Hbest).
    exists m'. split_and!; [done| |done..].
    unfold update_row. unfold bind at 1. rewrite Hcl, Hgate, changes_S.
    unfold bind. by rewrite Hch.
  - intros c0 rest Hcl Hlt Hs.
    destruct (CM_col_change_add m name c0 rest scores Hlt) as (m' & Hadd & Hch & Hm').
    destruct (CM_clusters_not_in_column_head m name best c0 rest (cell scores name)
                Hcl Hs) as (Hin & Hnot & Hbest).
    exists m'. split_and!; [done| |done..].
    unfold update_col. unfold bind at 1. rewrite Hcl, Hgate, changes_S.
    unfold bind. by rewrite Hch.
  - intros slots i take Hf Hi Htake. split.
    + unfold update_row2. by rewrite Hgate.
    + by apply (OM_row_change2_free_slot o name best slots i take scores).
Qed.

Lemma free_slot_assignment_witness :
  ∃ m',
    CM.add_cluster_to_row "g1" 3 sample_cm = Returns tt m' ∧
    update_row number_scores [3; 2; 1] 1 1 0 "g1" sample_cm
    = bind (changes 0 (row_change number_scores "g1") [2]) (λ _, ret tt) m' ∧
    CM.clusters_for_row m' "g1" = CM.clusters_for_row sample_cm "g1" ∪ {[ 3 ]} ∧
    3 ∈ [3; 2; 1] ∧ (3 ∉ CM.clusters_for_row sample_cm "g1") ∧
    (∀ c, c ∈ [3; 2; 1] → c ∉ CM.clusters_for_row sample_cm "g1" →
          (cell number_scores "g1" c <= cell number_scores "g1" 3)%Q).
Proof.
  apply (proj1 (free_slot_assignment sample_cm sample_om "g1" number_scores
                  [3; 2; 1] 1 0 0 eq_refl) 3 [2]).
  - vm_compute. reflexivity.
  - vm_compute. lia.
  - repeat constructor; by vm_compute.
Defined.

(** ** The column updater of OrigMembership at work *)

(* The candidate list is not consumed between the changes of one pass, so
   the second change offers cluster 3 again when the column already holds
   it; replace_column_cluster then overwrites cluster 1 as well. *)
Lemma update_for_cols2_repeats_candidate :
  OM.col_memb (final (update_for_cols2 column_order column_scores (λ _, 0%Q)
                         full_column_om)) !! "c1"%string
  = Some [3; 3].
Proof. vm_compute. reflexivity. Qed.

(* In update_for_cols2 the checked add is called with the unbound name
   [row]; the handler of the bare except runs the replacement step instead,
   so the free slot of the column stays free. *)
Lemma update_for_cols2_leaves_slot_free :
  OM.col_memb (final (update_for_cols2 free_column_order column_scores (λ _, 0%Q)
                         free_column_om)) !! "c1"%string
  = Some [3; 0].
Proof. vm_compute. reflexivity. Qed.

(** ** Removing, re-adding and replacing in the set-based store *)

Lemma CM_remove_row_not_held m row cluster :
  CM_rows_consistent m → cluster ∉ CM.clusters_for_row m row →
  final (CM.remove_cluster_from_row row cluster m) = m.
Proof.
  intros Hc Hn. unfold CM.remove_cluster_from_row; run.
  unfold CM.clusters_for_row in Hn.
  destruct (CM.row_is_member_of m !! row) as [cl|] eqn:Hf; simpl in *.
  - by destruct (decide (cluster ∈ cl)).
  - destruct (CM.cluster_row_members m !! cluster) as [rs|] eqn:Hi; [|done].
    destruct (decide (row ∈ rs)) as [Hin|]; [|done]. exfalso.
    assert (row ∈ CM.rows_for_cluster m cluster)
      by (unfold CM.rows_for_cluster; by rewrite Hi).
    apply Hc in H. unfold CM.clusters_for_row in H. rewrite Hf in H. set_solver.
Qed.

Lemma CM_remove_col_not_held m col cluster :
  CM_cols_consistent m → cluster ∉ CM.clusters_for_column m col →
  final (CM.remove_cluster_from_column col cluster m) = m.
Proof.
  intros Hc Hn. unfold CM.remove_cluster_from_column; run.
  assert (Hcol : col ∉ CM.columns_for_cluster m cluster)
    by (intros Hin; by apply Hc in Hin).
  unfold CM.clusters_for_column in Hn. unfold CM.columns_for_cluster in Hcol.
  destruct (CM.cluster_column_members m !! cluster) as [cs|] eqn:Hj; simpl in *.
  - by destruct (decide (col ∈ cs)).
  - destruct (CM.column_is_member_of m !! col) as [cl|] eqn:Hg; [|done].
    simpl in *. by destruct (decide (cluster ∈ cl)).
Qed.

Lemma CM_remove_row_held m row cluster :
  CM_rows_consistent m → cluster ∈ CM.clusters_for_row m row →
  ∃ m', CM.remove_cluster_from_row row cluster m = Returns tt m' ∧
        CM.clusters_for_row m' row = CM.clusters_for_row m row ∖ {[cluster]} ∧
        CM.rows_for_cluster m' cluster = CM.rows_for_cluster m cluster ∖ {[row]} ∧
        (∀ r, r ≠ row → CM.clusters_for_row m' r = CM.clusters_for_row m r) ∧
        (∀ c, c ≠ cluster → CM.rows_for_cluster m' c = CM.rows_for_cluster m c).
Proof.
  intros Hc Hin. pose proof (proj1 (Hc row cluster) Hin) as Hrow.
  unfold CM.clusters_for_row in Hin. unfold CM.rows_for_cluster in Hrow.
  destruct (CM.row_is_member_of m !! row) as [cl|] eqn:Hf; [|set_solver].
  destruct (CM.cluster_row_members m !! cluster) as [rs|] eqn:Hi; [|set_solver].
  simpl in *. rewrite (CM_remove_row_eq m row cluster cl rs) by done.
  eexists. split; [done|]. cm_unfold. rewrite Hf, Hi, !lookup_insert_eq. simpl.
  split_and!; [done|done| |].
  - intros r Hr. by rewrite lookup_insert_ne.
  - intros c Hne. by rewrite lookup_insert_ne.
Qed.

Lemma CM_remove_col_held m col cluster :
  CM_cols_consistent m → cluster ∈ CM.clusters_for_column m col →
  ∃ m', CM.remove_cluster_from_column col cluster m = Returns tt m' ∧
        CM.clusters_for_column m' col = CM.clusters_for_column m col ∖ {[cluster]} ∧
        CM.columns_for_cluster m' cluster
        = CM.columns_for_cluster m cluster ∖ {[col]} ∧
        (∀ r, r ≠ col → CM.clusters_for_column m' r = CM.clusters_for_column m r) ∧
        (∀ c, c ≠ cluster → CM.columns_for_cluster m' c = CM.columns_for_cluster m c).
Proof.
  intros Hc Hin. pose proof (proj1 (Hc col cluster) Hin) as Hcol.
  unfold CM.clusters_for_column in Hin. unfold CM.columns_for_cluster in Hcol.
  destruct (CM.column_is_member_of m !! col) as [cl|] eqn:Hf; [|set_solver].
  destruct (CM.cluster_column_members m !! cluster) as [cs|] eqn:Hi; [|set_solver].
  simpl in *. rewrite (CM_remove_col_eq m col cluster cl cs) by done.
  eexists. split; [done|]. cm_unfold. rewrite Hf, Hi, !lookup_insert_eq. simpl.
  split_and!; [done|done| |].
  - intros r Hr. by rewrite lookup_insert_ne.
  - intros c Hne. by rewrite lookup_insert_ne.
Qed.

(** X1. remove_cluster_from_row / remove_cluster_from_column on a consistent
    ClusterMembership: a pair that is held is taken out of the forward and
    of the inverse map and nothing else changes; for a pair that is not
    held the store is left exactly as it was (the call returns or raises
    KeyError). *)
Theorem CM_remove_spec (m : CM.t) (name : string) (cluster : Z) :
  CM_consistent m →
  (cluster ∈ CM.clusters_for_row m name →
   ∃ m', CM.remove_cluster_from_row name cluster m = Returns tt m' ∧
         CM.clusters_for_row m' name = CM.clusters_for_row m name ∖ {[cluster]} ∧
         CM.rows_for_cluster m' cluster = CM.rows_for_cluster m cluster ∖ {[name]} ∧
         (∀ r, r ≠ name → CM.clusters_for_row m' r = CM.clusters_for_row m r) ∧
         (∀ c, c ≠ cluster → CM.rows_for_cluster m' c = CM.rows_for_cluster m c)) ∧
  (cluster ∉ CM.clusters_for_row m name →
   final (CM.remove_cluster_from_row name cluster m) = m) ∧
  (cluster ∈ CM.clusters_for_column m name →
   ∃ m', CM.remove_cluster_from_column name cluster m = Returns tt m' ∧
         CM.clusters_for_column m' name = CM.clusters_for_column m name ∖ {[cluster]} ∧
         CM.columns_for_cluster m' cluster
         = CM.columns_for_cluster m cluster ∖ {[name]} ∧
         (∀ r, r ≠ name → CM.clusters_for_column m' r = CM.clusters_for_column m r) ∧
         (∀ c, c ≠ cluster →
               CM.columns_for_cluster m' c = CM.columns_for_cluster m c)) ∧
  (cluster ∉ CM.clusters_for_column m name →
   final (CM.remove_cluster_from_column name cluster m) = m).
Proof.
  intros [Hr Hc]. split_and!.
  - by apply CM_remove_row_held.
  - by apply CM_remove_row_not_held.
  - by apply CM_remove_col_held.
  - by apply CM_remove_col_not_held.
Qed.

Lemma CM_remove_spec_witness :
  ∃ m', CM.remove_cluster_from_row "g1" 1 sample_cm = Returns tt m' ∧
        CM.clusters_for_row m' "g1" = CM.clusters_for_row sample_cm "g1" ∖ {[ 1 ]} ∧
        CM.rows_for_cluster m' 1 = CM.rows_for_cluster sample_cm 1 ∖ {[ "g1"%string ]} ∧
        (∀ r, r ≠ "g1"%string →
              CM.clusters_for_row m' r = CM.clusters_for_row sample_cm r) ∧
        (∀ c, c ≠ 1 → CM.rows_for_cluster m' c = CM.rows_for_cluster sample_cm c).
Proof.
  apply (CM_remove_spec sample_cm "g1" 1).
  - apply CM_init_consistent.
  - apply elem_of_singleton. vm_compute. reflexivity.
Defined.

(** X2. replace_row_cluster is remove followed by the checked add: in a
    row that holds more than clusters_per_row clusters (after unchecked
    adds) the old cluster is removed from both maps and the add then raises
    the limit exception, so the row ends without the old and without the
    new cluster.  Columns behave the same. *)
Theorem CM_replace_over_capacity (m : CM.t) (name : string) (old new : Z)
    (current : gset Z) :
  old ∈ current → new ∉ current →
  (CM_rows_consistent m →
   CM.row_is_member_of m !! name = Some current →
   (CM.num_clusters_per_row m < size current)%nat →
   ∃ m', CM.replace_row_cluster name old new m = Raises LimitExceeded m' ∧
         CM.clusters_for_row m' name = current ∖ {[old]} ∧
         (name ∉ CM.rows_for_cluster m' old) ∧
         (name ∉ CM.rows_for_cluster m' new)) ∧
  (CM_cols_consistent m →
   CM.column_is_member_of m !! name = Some current →
   (CM.num_clusters_per_column m < size current)%nat →
   ∃ m', CM.replace_column_cluster name old new m = Raises LimitExceeded m' ∧
         CM.clusters_for_column m' name = current ∖ {[old]} ∧
         (name ∉ CM.columns_for_cluster m' old) ∧
         (name ∉ CM.columns_for_cluster m' new)).
Proof.
  intros Hold Hnew.
  assert (Hsize : size current = S (size (current ∖ {[old]}))).
  { rewrite (union_difference_L {[old]} current) at 1 by set_solver.
    rewrite size_union by set_solver. by rewrite size_singleton. }
  split.
  - intros Hc Hf Hover.
    assert (Hne : old ≠ new) by (intros ->; done).
    assert (Hrow_old : name ∈ CM.rows_for_cluster m old).
    { apply Hc. unfold CM.clusters_for_row. by rewrite Hf. }
    assert (Hrow_new : name ∉ CM.rows_for_cluster m new).
    { intros Hin. apply Hc in Hin. unfold CM.clusters_for_row in Hin.
      by rewrite Hf in Hin. }
    unfold CM.replace_row_cluster, CM.is_row_in_cluster.
    unfold bind at 1. unfold get at 1.
    rewrite bool_decide_eq_true_2 by done.
    rewrite (bool_decide_eq_false_2 (name ∈ _)) by done. simpl.
    unfold CM.rows_for_cluster in Hrow_old.
    destruct (CM.cluster_row_members m !! old) as [rows|] eqn:Hi; [|set_solver].
    simpl in Hrow_old. unfold bind at 1.
    rewrite (CM_remove_row_eq m name old current rows) by done.
    unfold CM.add_cluster_to_row. unfold bind at 1. unfold get at 1.
    destruct (decide _) as [_|Hfree].
    + eexists. split; [reflexivity|]. cm_unfold.
      rewrite !lookup_insert_eq. simpl. split_and!; [done|set_solver|].
      by rewrite lookup_insert_ne.
    + exfalso. apply Hfree.
      unfold CM.num_clusters_for_row, CM.clusters_for_row, CM.num_clusters_per_row
        in *. simpl. rewrite lookup_insert_eq. simpl. lia.
  - intros Hc Hf Hover.
    assert (Hne : new ≠ old) by (intros ->; done).
    assert (Hcol_old : name ∈ CM.columns_for_cluster m old).
    { apply Hc. unfold CM.clusters_for_column. by rewrite Hf. }
    assert (Hcol_new : name ∉ CM.columns_for_cluster m new).
    { intros Hin. apply Hc in Hin. unfold CM.clusters_for_column in Hin.
      by rewrite Hf in Hin. }
    unfold CM.replace_column_cluster, CM.is_column_in_cluster.
    unfold bind at 1. unfold get at 1.
    rewrite bool_decide_eq_true_2 by done.
    rewrite (bool_decide_eq_false_2 (name ∈ _)) by done. simpl.
    unfold CM.columns_for_cluster in Hcol_old.
    destruct (CM.cluster_column_members m !! old) as [cols|] eqn:Hi; [|set_solver].
    simpl in Hcol_old. unfold bind at 1.
    rewrite (CM_remove_col_eq m name old current cols) by done.
    unfold CM.add_cluster_to_column. unfold bind at 1. unfold get at 1.
    destruct (decide _) as [_|Hfree].
    + eexists. split; [reflexivity|]. cm_unfold.
      rewrite !lookup_insert_eq. simpl. split_and!; [done|set_solver|].
      by rewrite lookup_insert_ne.
    + exfalso. apply Hfree.
      unfold CM.num_clusters_for_column, CM.clusters_for_column,
        CM.num_clusters_per_column in *. simpl. rewrite lookup_insert_eq. simpl. lia.
Qed.

Lemma CM_replace_over_capacity_witness :
  ∃ m', CM.replace_row_cluster "g1" 1 5 crowded_row_cm = Raises LimitExceeded m' ∧
        CM.clusters_for_row m' "g1" = {[ 1; 2; 3 ]} ∖ {[ 1 ]} ∧
        ("g1"%string ∉ CM.rows_for_cluster m' 1) ∧
        ("g1"%string ∉ CM.rows_for_cluster m' 5).
Proof.
  assert (H1 : (1 : Z) ∈ ({[ 1; 2; 3 ]} : gset Z)).
  { apply elem_of_union_l, elem_of_union_l. by apply elem_of_singleton. }
  assert (H5 : (5 : Z) ∉ ({[ 1; 2; 3 ]} : gset Z)).
  { rewrite !not_elem_of_union, !not_elem_of_singleton. lia. }
  apply (proj1 (CM_replace_over_capacity crowded_row_cm "g1" 1 5 {[ 1; 2; 3 ]} H1 H5)).
  - apply (CM_init_consistent {[ "g1"%string := {[ 1; 2; 3 ]} ]} ∅ sample_config).
  - vm_compute. reflexivity.
  - vm_compute. lia.
Defined.

(** X3. Adding a cluster a row does not hold (unchecked add) and removing
    it again gives back every lookup of a consistent ClusterMembership:
    clusters_for_row and rows_for_cluster are as before for every row and
    cluster. *)
Theorem CM_add_then_remove (m : CM.t) (row : string) (cluster : Z) :
  CM_rows_consistent m → cluster ∉ CM.clusters_for_row m row →
  ∃ m1 m2,
    CM.add_cluster_to_row_unchecked row cluster m = Returns tt m1 ∧
    CM.remove_cluster_from_row row cluster m1 = Returns tt m2 ∧
    ∀ r c, CM.clusters_for_row m2 r = CM.clusters_for_row m r ∧
           CM.rows_for_cluster m2 c = CM.rows_for_cluster m c.
Proof.
  intros Hc Hn.
  assert (Hrow : row ∉ CM.rows_for_cluster m cluster)
    by (intros Hin; by apply Hc in Hin).
  pose proof (CM_add_row_unchecked_consistent row cluster m Hc) as Hc1.
  rewrite CM_add_row_unchecked_eq in Hc1 |- *. simpl in Hc1.
  set (m1 := CM.set_cluster_row_members _ _) in *.
  assert (Hheld : cluster ∈ CM.clusters_for_row m1 row).
  { unfold m1. cm_unfold. rewrite lookup_insert_eq. simpl. set_solver. }
  destruct (CM_remove_row_held m1 row cluster Hc1 Hheld)
    as (m2 & E & Hf & Hi & Hfo & Hio).
  exists m1, m2. split_and!; [done..|]. intros r c. split.
  - destruct (decide (r = row)) as [->|Hne].
    + rewrite Hf. unfold m1. cm_unfold. rewrite lookup_insert_eq. simpl. set_solver.
    + rewrite Hfo by done. unfold m1. cm_unfold. by rewrite lookup_insert_ne.
  - destruct (decide (c = cluster)) as [->|Hne].
    + rewrite Hi. unfold m1. cm_unfold. rewrite lookup_insert_eq. simpl. set_solver.
    + rewrite Hio by done. unfold m1. cm_unfold. by rewrite lookup_insert_ne.
Qed.

Lemma CM_add_then_remove_witness :
  ∃ m1 m2,
    CM.add_cluster_to_row_unchecked "g1" 2 sample_cm = Returns tt m1 ∧
    CM.remove_cluster_from_row "g1" 2 m1 = Returns tt m2 ∧
    ∀ r c, CM.clusters_for_row m2 r = CM.clusters_for_row sample_cm r ∧
           CM.rows_for_cluster m2 c = CM.rows_for_cluster sample_cm c.
Proof.
  apply (CM_add_then_remove sample_cm "g1" 2).
  - apply CM_init_consistent.
  - apply not_elem_of_singleton. lia.
Defined.

(** ** Failing and repeated adds in the slot-based store *)

Lemma OM_add_row_outcome o row cluster force :
  (∃ o', OM.add_cluster_to_row row cluster force o = Returns tt o') ∨
  (∃ e, OM.add_cluster_to_row row cluster force o = Raises e o).
Proof.
  rewrite OM_add_row_cases.
  destruct (OM.row_memb o !! row); [|right; by eexists].
  destruct (index_of 0 l), force, (int_ok cluster);
    (left; by eexists) || (right; by eexists).
Qed.

Lemma OM_add_col_outcome o col cluster force :
  (∃ o', OM.add_cluster_to_column col cluster force o = Returns tt o') ∨
  (∃ e, OM.add_cluster_to_column col cluster force o = Raises e o).
Proof.
  rewrite OM_add_col_cases.
  destruct (OM.col_memb o !! col); [|right; by eexists].
  destruct (index_of 0 l), force, (int_ok cluster);
    (left; by eexists) || (right; by eexists).
Qed.

(** X4. A failing add never leaves a half-written store, in either class:
    whenever add_cluster_to_row / add_cluster_to_column raises, the store is
    the one before the call.  In OrigMembership the bare except turns every
    failure of a non-forced add into the limit exception: a row the store
    does not know and a cluster number outside the range of the int array
    both raise it, while the forced add raises KeyError for the unknown row
    and OverflowError for the number out of range. *)
Theorem add_failure_leaves_store (m : CM.t) (o : OM.t) (name : string) (cluster : Z) :
  ((∃ m', CM.add_cluster_to_row name cluster m = Returns tt m') ∨
   CM.add_cluster_to_row name cluster m = Raises LimitExceeded m) ∧
  ((∃ m', CM.add_cluster_to_column name cluster m = Returns tt m') ∨
   CM.add_cluster_to_column name cluster m = Raises LimitExceeded m) ∧
  (∀ force,
     ((∃ o', OM.add_cluster_to_row name cluster force o = Returns tt o') ∨
      (∃ e, OM.add_cluster_to_row name cluster force o = Raises e o)) ∧
     ((∃ o', OM.add_cluster_to_column name cluster force o = Returns tt o') ∨
      (∃ e, OM.add_cluster_to_column name cluster force o = Raises e o))) ∧
  (OM.row_memb o !! name = None →
   OM.add_cluster_to_row name cluster false o = Raises LimitExceeded o ∧
   OM.add_cluster_to_row name cluster true o = Raises KeyError o) ∧
  (OM.col_memb o !! name = None →
   OM.add_cluster_to_column name cluster false o = Raises LimitExceeded o ∧
   OM.add_cluster_to_column name cluster true o = Raises KeyError o) ∧
  (is_Some (OM.row_memb o !! name) → int_ok cluster = false →
   OM.add_cluster_to_row name cluster false o = Raises LimitExceeded o ∧
   OM.add_cluster_to_row name cluster true o = Raises OverflowError o) ∧
  (is_Some (OM.col_memb o !! name) → int_ok cluster = false →
   OM.add_cluster_to_column name cluster false o = Raises LimitExceeded o ∧
   OM.add_cluster_to_column name cluster true o = Raises OverflowError o).
Proof.
  split_and!.
  - unfold CM.add_cluster_to_row; run. case_decide; [by right|left].
    rewrite CM_add_row_unchecked_eq. by eexists.
  - unfold CM.add_cluster_to_column; run. case_decide; [by right|left].
    rewrite CM_add_col_unchecked_eq. by eexists.
  - intros force. split; [apply OM_add_row_outcome | apply OM_add_col_outcome].
  - intros Hf. rewrite !OM_add_row_cases, Hf. done.
  - intros Hf. rewrite !OM_add_col_cases, Hf. done.
  - intros [slots Hf] Hint. rewrite !OM_add_row_cases, Hf, Hint.
    by destruct (index_of 0 slots).
  - intros [slots Hf] Hint. rewrite !OM_add_col_cases, Hf, Hint.
    by destruct (index_of 0 slots).
Qed.

Lemma add_failure_leaves_store_witness :
  (OM.add_cluster_to_row "g9" 2 false sample_om = Raises LimitExceeded sample_om ∧
   OM.add_cluster_to_row "g9" 2 true sample_om = Raises KeyError sample_om) ∧
  (OM.add_cluster_to_row "g1" (2 ^ 31) false sample_om = Raises LimitExceeded sample_om ∧
   OM.add_cluster_to_row "g1" (2 ^ 31) true sample_om = Raises OverflowError sample_om).
Proof.
  split.
  - apply (add_failure_leaves_store sample_cm sample_om "g9" 2).
    vm_compute. reflexivity.
  - apply (add_failure_leaves_store sample_cm sample_om "g1" (2 ^ 31)).
    + eexists. vm_compute. reflexivity.
    + vm_compute. reflexivity.
Defined.

(** X5. add_cluster_to_row of OrigMembership does not look at what the row
    holds: adding a cluster the row already holds, while a slot is free,
    fills that slot too.  The cluster then sits in two slots of the row, the
    set of clusters of the row and the members of every cluster are as
    before, and one free slot is used up. *)
Theorem OM_add_held_cluster (o : OM.t) (row : string) (cluster : Z)
    (slots : list Z) (i : nat) :
  OM_rows_consistent o →
  OM.row_memb o !! row = Some slots → index_of 0 slots = Some i →
  cluster ∈ slots → 0 < cluster → int_ok cluster = true →
  ∃ o' j, OM.add_cluster_to_row row cluster false o = Returns tt o' ∧
          OM.row_memb o' !! row = Some (<[i := cluster]> slots) ∧
          j ≠ i ∧
          <[i := cluster]> slots !! i = Some cluster ∧
          <[i := cluster]> slots !! j = Some cluster ∧
          OM.clusters_for_row row o' = Returns (OM.clusters_of slots) o' ∧
          (∀ c, OM.rows_for_cluster o' c = OM.rows_for_cluster o c).
Proof.
  intros Hc Hf Hi Hin Hpos Hint.
  apply index_of_Some in Hi as Hi'. destruct Hi' as [Hi0 _].
  assert (Hlt : (i < length slots)%nat) by (by eapply lookup_lt_Some).
  apply list_elem_of_lookup_1 in Hin as Hj. destruct Hj as [j Hj].
  assert (Hji : j ≠ i) by (intros ->; rewrite Hi0 in Hj; simplify_eq; lia).
  rewrite OM_add_row_cases, Hf, Hi, Hint.
  eexists _, j. split; [done|]. split_and!.
  - simpl. by rewrite lookup_insert_eq.
  - done.
  - by apply list_lookup_insert_eq.
  - by rewrite list_lookup_insert_ne.
  - unfold OM.clusters_for_row; run. rewrite lookup_insert_eq. f_equal.
    apply set_eq. intros c. rewrite !elem_of_clusters_of.
    destruct (decide (c = 0)) as [->|Hc0]; [lia|].
    rewrite (elem_of_slot_store slots i 0 cluster c) by done.
    split; [|tauto]. intros [[->|?] ?]; auto.
  - intros c. unfold OM.rows_for_cluster at 1. simpl.
    destruct (decide (c = cluster)) as [->|Hne].
    + rewrite lookup_insert_eq. simpl. apply gset_union_singleton_id.
      apply Hc. apply OM_row_holds_iff. by exists slots.
    + by rewrite lookup_insert_ne.
Qed.

Lemma OM_add_held_cluster_witness :
  ∃ o' j, OM.add_cluster_to_row "g1" 1 false sample_om = Returns tt o' ∧
          OM.row_memb o' !! "g1"%string = Some (<[1%nat := 1]> [1; 0]) ∧
          j ≠ 1%nat ∧
          <[1%nat := 1]> [1; 0] !! 1%nat = Some 1 ∧
          <[1%nat := 1]> [1; 0] !! j = Some 1 ∧
          OM.clusters_for_row "g1" o' = Returns (OM.clusters_of [1; 0]) o' ∧
          (∀ c, OM.rows_for_cluster o' c = OM.rows_for_cluster sample_om c).
Proof.
  apply (OM_add_held_cluster sample_om "g1" 1 [1; 0] 1).
  - apply (OM_init_consistent {[ "g1"%string := [1] ]} {[ "c1"%string := [1] ]}
             sample_config).
  - vm_compute. reflexivity.
  - vm_compute. reflexivity.
  - left.
  - lia.
  - reflexivity.
Defined.

(** ** Replacing the content of a free slot *)

(** X6. replace_row_cluster of OrigMembership applied to a free slot (one
    holding 0).  While another slot of the row is free the call is an add:
    the slot takes the new cluster and the row joins its members.  When it
    was the last free slot, the lookup of the members of cluster 0 raises
    KeyError after the slot has been written: the row then holds the new
    cluster while the members of the new cluster are as before, so the row
    is not among them. *)
Theorem OM_replace_free_slot (o : OM.t) (row : string) (index : Z) (k : nat)
    (slots : list Z) (new : Z) :
  OM.row_memb o !! row = Some slots →
  py_index (length slots) index = Some k →
  slots !! k = Some 0 →
  OM.cluster_rows o !! 0 = None →
  0 < new → new ∉ slots → int_ok new = true →
  (0 ∈ <[k := new]> slots →
   OM.replace_row_cluster row index new o
   = Returns tt (OM_with_row_edge o row (<[k := new]> slots) new)) ∧
  (0 ∉ <[k := new]> slots →
   ∃ o', OM.replace_row_cluster row index new o = Raises KeyError o' ∧
         OM_row_holds o' row new ∧
         (∀ c, OM.rows_for_cluster o' c = OM.rows_for_cluster o c) ∧
         (OM_rows_consistent o → row ∉ OM.rows_for_cluster o' new)).
Proof.
  intros Hf Hk Hslot Hzero Hpos Hnew Hint.
  assert (Hheld : new ∉ OM.clusters_of slots)
    by (rewrite elem_of_clusters_of; tauto).
  rewrite OM_replace_row_cases, Hf, Hk, Hint, Hslot. simpl.
  destruct (decide (new ∉ OM.clusters_of slots)); [|done].
  split.
  - intros H0. by destruct (decide (0 ∉ <[k:=new]> slots)).
  - intros H0. destruct (decide (0 ∉ <[k:=new]> slots)); [|done].
    rewrite Hzero. eexists. split; [done|]. split_and!.
    + apply OM_row_holds_iff. eexists. simpl. rewrite lookup_insert_eq.
      split_and!; [done| |done]. apply elem_of_slot_store_new.
      by eapply lookup_lt_Some.
    + done.
    + intros Hc Hin. apply Hc in Hin. apply OM_row_holds_iff in Hin.
      destruct Hin as (s & Hs & Hin & _). simplify_eq. done.
Qed.

Lemma OM_replace_free_slot_witness :
  ∃ o', OM.replace_row_cluster "g1" 0 2 free_slot_om = Raises KeyError o' ∧
        OM_row_holds o' "g1" 2 ∧
        (∀ c, OM.rows_for_cluster o' c = OM.rows_for_cluster free_slot_om c) ∧
        (OM_rows_consistent free_slot_om → "g1"%string ∉ OM.rows_for_cluster o' 2).
Proof.
  apply (OM_replace_free_slot free_slot_om "g1" 0 0 [0] 2).
  - vm_compute. reflexivity.
  - vm_compute. reflexivity.
  - reflexivity.
  - vm_compute. reflexivity.
  - lia.
  - apply not_elem_of_cons. split; [lia|]. apply not_elem_of_nil.
  - reflexivity.
  - simpl. apply not_elem_of_cons. split; [lia|]. apply not_elem_of_nil.
Defined.

(** ** Invariants of the updater of ClusterMembership *)

Lemma preserves_changes {S} (P : S → Prop) n (step : list Z → M S (list Z)) clusters :
  (∀ l, preserves P (step l)) → preserves P (changes n step clusters).
Proof.
  intros Hs. revert clusters. induction n as [|n IH]; intros clusters; simpl.
  - apply preserves_ret.
  - apply preserves_bind; [apply Hs | intros l; apply IH].
Qed.

Lemma preserves_read {S A} (P : S → Prop) (c : M S A) :
  (∀ s, final (c s) = s) → preserves P c.
Proof. intros Hc s Hs. by rewrite Hc. Qed.

Lemma CM_clusters_not_in_row_final row clusters m :
  final (CM.clusters_not_in_row row clusters m) = m.
Proof. unfold CM.clusters_not_in_row; run. by repeat case_match. Qed.

Lemma CM_clusters_not_in_column_final col clusters m :
  final (CM.clusters_not_in_column col clusters m) = m.
Proof. unfold CM.clusters_not_in_column; run. by repeat case_match. Qed.

Lemma CM_add_row_invariant row cluster cfg g j :
  preserves (CM_row_invariant cfg g j) (CM.add_cluster_to_row row cluster).
Proof.
  apply preserves_get. intros m (Hfr & Hc & Hcap). case_decide as Hfull; [done|].
  split_and!.
  - destruct Hfr as (<- & <- & <-). by rewrite CM_add_row_unchecked_eq.
  - by apply CM_add_row_unchecked_consistent.
  - rewrite CM_add_row_unchecked_eq. simpl. intros r. specialize (Hcap r).
    unfold CM.num_clusters_for_row, CM.num_clusters_per_row in *. cm_unfold.
    destruct (decide (r = row)) as [->|Hne].
    + rewrite lookup_insert_eq. simpl.
      pose proof (size_union_alt (default ∅ (CM.row_is_member_of m !! row))
                    ({[cluster]} : gset Z)) as Hsz.
      assert (size (({[cluster]} : gset Z) ∖ default ∅ (CM.row_is_member_of m !! row))
              ≤ 1)%nat.
      { rewrite <- (size_singleton (C:=gset Z) cluster).
        apply subseteq_size. set_solver. }
      lia.
    + by rewrite lookup_insert_ne.
Qed.

Lemma CM_remove_row_invariant row cluster cfg g j :
  preserves (CM_row_invariant cfg g j) (CM.remove_cluster_from_row row cluster).
Proof.
  intros m (Hfr & Hc & Hcap). split_and!.
  - destruct Hfr as (<- & <- & <-). unfold CM.remove_cluster_from_row.
    destruct m; run. by repeat (case_match; simplify_eq/=; try done).
  - by apply CM_remove_row_consistent.
  - intros r. specialize (Hcap r). revert Hcap.
    unfold CM.num_clusters_for_row, CM.num_clusters_per_row,
      CM.remove_cluster_from_row. destruct m as [c0 f0 g0 i0 j0]; cm_unfold; run.
    destruct (f0 !! row) as [cl|] eqn:Hf; simpl.
    + destruct (decide (cluster ∈ cl)); simpl; [|done].
      assert (∀ fin : CM.t, CM.config_params fin = c0 →
                CM.row_is_member_of fin = <[row := cl ∖ {[cluster]}]> f0 →
                (size (default ∅ (f0 !! r)) ≤ clusters_per_row c0)%nat →
                (size (default ∅ (CM.row_is_member_of fin !! r))
                 ≤ clusters_per_row (CM.config_params fin))%nat) as Hfin.
      { intros fin -> -> Hle. destruct (decide (r = row)) as [->|Hne].
        - rewrite lookup_insert_eq. rewrite Hf in Hle. simpl in *.
          etrans; [|exact Hle]. apply subseteq_size. set_solver.
        - by rewrite lookup_insert_ne. }
      intros Hle. apply Hfin; [| |done]; by repeat (case_match; simpl).
    + by repeat (case_match; simpl).
Qed.

Lemma CM_replace_row_invariant row cluster replacement cfg g j :
  preserves (CM_row_invariant cfg g j) (CM.replace_row_cluster row cluster replacement).
Proof.
  apply preserves_get. intros m Hm. destruct (_ && _); [|done].
  apply preserves_bind; [| |done].
  - apply CM_remove_row_invariant.
  - intros _. apply CM_add_row_invariant.
Qed.

Lemma CM_replace_delta_row_invariant row cluster scores cfg g j :
  preserves (CM_row_invariant cfg g j) (CM.replace_delta_row_member row cluster scores).
Proof.
  apply preserves_get. intros m Hm.
  destruct (CM.row_is_member_of m !! row); [|done].
  destruct (deltas_for _ _ _ _) as [|[d c] rest]; [done|].
  destruct (Qpositive d); [|done].
  apply preserves_bind; [| |done].
  - apply CM_replace_row_invariant.
  - intros _. apply preserves_ret.
Qed.

Lemma CM_row_change_invariant scores row clusters cfg g j :
  preserves (CM_row_invariant cfg g j) (row_change scores row clusters).
Proof.
  destruct clusters as [|c0 rest]; [apply preserves_ret|].
  apply preserves_get. intros m Hm. case_decide.
  - apply preserves_bind; [| |done].
    + apply CM_add_row_invariant.
    + intros _. apply preserves_ret.
  - apply preserves_bind; [| |done].
    + apply CM_replace_delta_row_invariant.
    + intros old. case_decide; apply preserves_ret.
Qed.

Lemma CM_update_row_invariant scores best max_changes prob u row cfg g j :
  preserves (CM_row_invariant cfg g j) (update_row scores best max_changes prob u row).
Proof.
  apply preserves_bind.
  - apply preserves_read. apply CM_clusters_not_in_row_final.
  - intros clusters. destruct (seeing_change prob u); [|apply preserves_ret].
    apply preserves_bind; [|intros; apply preserves_ret].
    apply preserves_changes. intros l. apply CM_row_change_invariant.
Qed.

Lemma CM_update_for_rows_invariant order_fast scores draws cfg g j :
  preserves (CM_row_invariant cfg g j) (update_for_rows order_fast scores draws).
Proof.
  apply preserves_get. intros m Hm.
  apply preserves_for_each; [|done]. intros [index row].
  apply CM_update_row_invariant.
Qed.

Lemma CM_add_col_invariant col cluster cfg f i :
  preserves (CM_col_invariant cfg f i) (CM.add_cluster_to_column col cluster).
Proof.
  apply preserves_get. intros m (Hfr & Hc & Hcap). case_decide as Hfull; [done|].
  split_and!.
  - destruct Hfr as (<- & <- & <-). by rewrite CM_add_col_unchecked_eq.
  - by apply CM_add_col_unchecked_consistent.
  - rewrite CM_add_col_unchecked_eq. simpl. intros r. specialize (Hcap r).
    unfold CM.num_clusters_for_column, CM.num_clusters_per_column in *. cm_unfold.
    destruct (decide (r = col)) as [->|Hne].
    + rewrite lookup_insert_eq. simpl.
      pose proof (size_union_alt (default ∅ (CM.column_is_member_of m !! col))
                    ({[cluster]} : gset Z)) as Hsz.
      assert (size (({[cluster]} : gset Z)
                      ∖ default ∅ (CM.column_is_member_of m !! col)) ≤ 1)%nat.
      { rewrite <- (size_singleton (C:=gset Z) cluster).
        apply subseteq_size. set_solver. }
      lia.
    + by rewrite lookup_insert_ne.
Qed.

Lemma CM_remove_col_invariant col cluster cfg f i :
  preserves (CM_col_invariant cfg f i) (CM.remove_cluster_from_column col cluster).
Proof.
  intros m (Hfr & Hc & Hcap). split_and!.
  - destruct Hfr as (<- & <- & <-). unfold CM.remove_cluster_from_column.
    destruct m; run. by repeat (case_match; simplify_eq/=; try done).
  - by apply CM_remove_col_consistent.
  - intros r. specialize (Hcap r). revert Hcap.
    unfold CM.num_clusters_for_column, CM.num_clusters_per_column,
      CM.remove_cluster_from_column. destruct m as [c0 f0 g0 i0 j0]; cm_unfold; run.
    assert (∀ fin : CM.t, CM.config_params fin = c0 →
              (CM.column_is_member_of fin = g0 ∨
               ∃ cl, g0 !! col = Some cl ∧
                     CM.column_is_member_of fin = <[col := cl ∖ {[cluster]}]> g0) →
              (size (default ∅ (g0 !! r)) ≤ clusters_per_col c0)%nat →
              (size (default ∅ (CM.column_is_member_of fin !! r))
               ≤ clusters_per_col (CM.config_params fin))%nat) as Hfin.
    { intros fin -> [->|(cl & Hg & ->)] Hle; [done|].
      destruct (decide (r = col)) as [->|Hne].
      - rewrite lookup_insert_eq. rewrite Hg in Hle. simpl in *.
        etrans; [|exact Hle]. apply subseteq_size. set_solver.
      - by rewrite lookup_insert_ne. }
    intros Hle. apply Hfin; [| |done].
    + by repeat (case_match; simplify_eq/=; try done).
    + destruct (j0 !! cluster) as [cs|]; simpl.
      * destruct (decide (col ∈ cs)); simpl; [|by left].
        destruct (g0 !! col) as [cl|] eqn:Hg; simpl; [|by left].
        destruct (decide (cluster ∈ cl)); simpl; [|by left].
        right. by exists cl.
      * destruct (g0 !! col) as [cl|] eqn:Hg; simpl; [|by left].
        destruct (decide (cluster ∈ cl)); simpl; [|by left].
        right. by exists cl.
Qed.

Lemma CM_replace_col_invariant col cluster replacement cfg f i :
  preserves (CM_col_invariant cfg f i)
            (CM.replace_column_cluster col cluster replacement).
Proof.
  apply preserves_get. intros m Hm. destruct (_ && _); [|done].
  apply preserves_bind; [| |done].
  - apply CM_remove_col_invariant.
  - intros _. apply CM_add_col_invariant.
Qed.

Lemma CM_replace_delta_col_invariant col cluster scores cfg f i :
  preserves (CM_col_invariant cfg f i)
            (CM.replace_delta_column_member col cluster scores).
Proof.
  apply preserves_get. intros m Hm.
  destruct (CM.column_is_member_of m !! col); [|done].
  destruct (deltas_for _ _ _ _) as [|[d c] rest]; [done|].
  destruct (Qpositive d); [|done].
  apply preserves_bind; [| |done].
  - apply CM_replace_col_invariant.
  - intros _. apply preserves_ret.
Qed.

Lemma CM_col_change_invariant scores col clusters cfg f i :
  preserves (CM_col_invariant cfg f i) (col_change scores col clusters).
Proof.
  destruct clusters as [|c0 rest]; [apply preserves_ret|].
  apply preserves_get. intros m Hm. case_decide.
  - apply preserves_bind; [| |done].
    + apply CM_add_col_invariant.
    + intros _. apply preserves_ret.
  - apply preserves_bind; [| |done].
    + apply CM_replace_delta_col_invariant.
    + intros old. case_decide; apply preserves_ret.
Qed.

Lemma CM_update_for_cols_invariant order_fast scores draws cfg f i :
  preserves (CM_col_invariant cfg f i) (update_for_cols order_fast scores draws).
Proof.
  apply preserves_get. intros m Hm.
  apply preserves_for_each; [|done]. intros [index col].
  apply preserves_bind.
  - apply preserves_read. apply CM_clusters_not_in_column_final.
  - intros clusters. destruct (seeing_change _ _); [|apply preserves_ret].
    apply preserves_bind; [|intros; apply preserves_ret].
    apply preserves_changes. intros l. apply CM_col_change_invariant.
Qed.

(** X7. update_for_rows and update_for_cols keep the invariants of a
    ClusterMembership, whatever the scores, the best clusters and the random
    draws are and whether the update runs to its end or stops with an
    exception: forward and inverse maps agree, no row holds more than
    clusters_per_row clusters and no column more than clusters_per_col, the
    configuration is the same, and the row update leaves the column maps
    untouched (the column update the row maps). *)
Theorem CM_update_keeps_invariants (order_fast : list Q → nat → list Z)
    (scores : DataMatrix Q) (draws : nat → Q) (m : CM.t) :
  CM_consistent m → CM_rows_within_capacity m → CM_cols_within_capacity m →
  (let m' := final (update_for_rows order_fast scores draws m) in
   CM_consistent m' ∧ CM_rows_within_capacity m' ∧ CM_cols_within_capacity m' ∧
   CM.config_params m' = CM.config_params m ∧
   CM.column_is_member_of m' = CM.column_is_member_of m ∧
   CM.cluster_column_members m' = CM.cluster_column_members m) ∧
  (let m' := final (update_for_cols order_fast scores draws m) in
   CM_consistent m' ∧ CM_rows_within_capacity m' ∧ CM_cols_within_capacity m' ∧
   CM.config_params m' = CM.config_params m ∧
   CM.row_is_member_of m' = CM.row_is_member_of m ∧
   CM.cluster_row_members m' = CM.cluster_row_members m).
Proof.
  intros [Hr Hc] Hrcap Hccap. split; cbv zeta.
  - destruct (CM_update_for_rows_invariant order_fast scores draws
                (CM.config_params m) (CM.column_is_member_of m)
                (CM.cluster_column_members m) m)
      as ((E1 & E2 & E3) & Hr' & Hcap'); [by split_and!|].
    split_and!; try done.
    + split; [done|]. intros r c. cm_unfold. rewrite E2, E3. apply Hc.
    + intros c. specialize (Hccap c).
      unfold CM.num_clusters_for_column, CM.num_clusters_per_column,
        CM.clusters_for_column in *. by rewrite E1, E2.
  - destruct (CM_update_for_cols_invariant order_fast scores draws
                (CM.config_params m) (CM.row_is_member_of m)
                (CM.cluster_row_members m) m)
      as ((E1 & E2 & E3) & Hc' & Hcap'); [by split_and!|].
    split_and!; try done.
    + split; [|done]. intros r c. cm_unfold. rewrite E2, E3. apply Hr.
    + intros r. specialize (Hrcap r).
      unfold CM.num_clusters_for_row, CM.num_clusters_per_row,
        CM.clusters_for_row in *. by rewrite E1, E2.
Qed.

Lemma CM_init_within_capacity rows cols cfg :
  (∀ r cl, rows !! r = Some cl → (size cl ≤ clusters_per_row cfg)%nat) →
  (∀ c cl, cols !! c = Some cl → (size cl ≤ clusters_per_col cfg)%nat) →
  CM_rows_within_capacity (CM.init rows cols cfg) ∧
  CM_cols_within_capacity (CM.init rows cols cfg).
Proof.
  intros Hr Hc. split.
  - intros r. unfold CM.num_clusters_for_row, CM.clusters_for_row,
      CM.num_clusters_per_row. simpl.
    destruct (rows !! r) as [cl|] eqn:E; [by eapply Hr|].
    unfold default. rewrite size_empty. lia.
  - intros c. unfold CM.num_clusters_for_column, CM.clusters_for_column,
      CM.num_clusters_per_column. simpl.
    destruct (cols !! c) as [cl|] eqn:E; [by eapply Hc|].
    unfold default. rewrite size_empty. lia.
Qed.

Lemma CM_update_keeps_invariants_witness :
  CM_consistent
    (final (update_for_rows held_best_order number_scores (λ _, 0%Q) sample_cm)) ∧
  CM_rows_within_capacity
    (final (update_for_rows held_best_order number_scores (λ _, 0%Q) sample_cm)).
Proof.
  assert (Hcap : CM_rows_within_capacity sample_cm ∧ CM_cols_within_capacity sample_cm).
  { apply CM_init_within_capacity.
    - intros r cl [_ <-]%lookup_singleton_Some. rewrite size_singleton. simpl. lia.
    - intros c cl [_ <-]%lookup_singleton_Some. rewrite size_singleton. simpl. lia. }
  destruct (CM_update_keeps_invariants held_best_order number_scores (λ _, 0%Q)
              sample_cm (CM_init_consistent _ _ _) (proj1 Hcap) (proj2 Hcap))
    as [(H1 & H2 & _) _].
  by split.
Defined.

(** ** Invariants of the updater of OrigMembership *)

Lemma OM_add_row_invariant row cluster force cfg g j :
  0 < cluster →
  preserves (OM_row_invariant cfg g j) (OM.add_cluster_to_row row cluster force).
Proof.
  intros Hpos o (Hfr & Hc & Hnn). split_and!.
  - destruct Hfr as (<- & <- & <-). rewrite OM_add_row_cases. cbv zeta.
    by repeat (case_match; simpl).
  - by apply OM_add_row_consistent.
  - rewrite OM_add_row_cases.
    destruct (OM.row_memb o !! row) as [slots|] eqn:Hf; [|done].
    assert (∀ slots', (∀ c, c ∈ slots' → c = cluster ∨ c ∈ slots) →
              OM_row_slots_nonneg (OM_with_row_edge o row slots' cluster)) as Hedge.
    { intros slots' Hs r s c. simpl. destruct (decide (r = row)) as [->|Hne].
      - rewrite lookup_insert_eq. intros [= <-] [->|Hin]%Hs; [lia|]. by eapply Hnn.
      - rewrite lookup_insert_ne by done. apply Hnn. }
    destruct (index_of 0 slots) as [k|] eqn:Hk.
    + destruct (int_ok cluster); [|done]. apply Hedge. intros c Hin.
      apply index_of_Some in Hk as [Hk _].
      destruct (decide (c = 0)) as [->|Hc0]; [right; by eapply list_elem_of_lookup_2|].
      by apply (elem_of_slot_store slots k 0 cluster c) in Hin.
    + destruct force; [|done]. destruct (int_ok cluster); [|done]. apply Hedge.
      intros c [Hin|Hin%list_elem_of_singleton]%elem_of_app; auto.
Qed.

Lemma OM_replace_row_invariant row index new cfg g j o :
  0 < new → OM_row_slot_holds_cluster o row index →
  OM_row_invariant cfg g j o →
  OM_row_invariant cfg g j (final (OM.replace_row_cluster row index new o)).
Proof.
  intros Hpos Hslot (Hfr & Hc & Hnn). split_and!.
  - destruct Hfr as (<- & <- & <-). rewrite OM_replace_row_cases. cbv zeta.
    by repeat (case_match; simpl).
  - by apply OM_replace_row_consistent.
  - rewrite OM_replace_row_cases.
    destruct (OM.row_memb o !! row) as [slots|] eqn:Hf; [|done].
    destruct (decide _); [|done].
    destruct (py_index _ _) as [k|] eqn:Hk; [|done].
    destruct (int_ok new); [|done]. cbv zeta.
    assert (∀ fin, OM.row_memb fin = <[row := <[k := new]> slots]> (OM.row_memb o) →
              OM_row_slots_nonneg fin) as Hfin.
    { intros fin E r s c. rewrite E. destruct (decide (r = row)) as [->|Hne].
      - rewrite lookup_insert_eq. intros [= <-] Hin.
        apply list_elem_of_lookup_1 in Hin as [i Hi].
        destruct (decide (i = k)) as [->|Hik].
        + rewrite list_lookup_insert_eq in Hi by (by eapply py_index_lt).
          simplify_eq. lia.
        + rewrite list_lookup_insert_ne in Hi by done.
          eapply Hnn; [done|]. by eapply list_elem_of_lookup_2.
      - rewrite lookup_insert_ne by done. apply Hnn. }
    apply Hfin. by repeat (case_match; simpl).
Qed.

Lemma py_index_of_nat len (i k : nat) :
  py_index len (Z.of_nat i) = Some k → k = i ∧ (i < len)%nat.
Proof.
  unfold py_index. destruct (Z.leb_spec 0 (Z.of_nat i)); [|lia].
  destruct (Z.ltb_spec (Z.of_nat i) (Z.of_nat len)); [|done].
  intros [= <-]. lia.
Qed.

Lemma OM_replace_delta_row2_invariant row rm scores cfg g j o :
  cluster_numbers rm →
  (∀ slots k, OM.row_memb o !! row = Some slots → (k < length rm)%nat →
              slots !! k ≠ Some 0) →
  OM_row_invariant cfg g j o →
  OM_row_invariant cfg g j (final (replace_delta_row_member2 row rm scores o)).
Proof.
  intros Hrm Hfull Ho. unfold replace_delta_row_member2.
  unfold bind at 1. unfold get at 1.
  destruct (OM.row_memb o !! row) as [slots|] eqn:Hf; [|done].
  destruct (np_sub _ _) as [deltas|]; [|done].
  destruct (existsb _ deltas); [|done].
  destruct (rm !! argmax deltas) as [new|] eqn:Hnew; [|done].
  apply OM_replace_row_invariant; [| |done].
  - unfold cluster_numbers in Hrm. rewrite list.Forall_forall in Hrm.
    apply (Hrm new). by eapply list_elem_of_lookup_2.
  - intros slots' k Hf' [-> Hlt]%py_index_of_nat.
    rewrite Hf in Hf'. injection Hf' as <-.
    destruct (lookup_lt_is_Some_2 slots _ Hlt) as [x Hx]. rewrite Hx. simpl.
    assert (0 ≤ x).
    { destruct Ho as (_ & _ & Hnn). eapply Hnn; [done|]. by eapply list_elem_of_lookup_2. }
    assert (x ≠ 0).
    { intros ->. eapply Hfull; [done| |done]. by eapply lookup_lt_Some. }
    lia.
Qed.

Lemma OM_row_change2_invariant scores row clusters cfg g j :
  cluster_numbers clusters →
  preserves (OM_row_invariant cfg g j) (row_change2 scores row clusters).
Proof.
  intros Hcl o Ho. destruct clusters as [|c0 cl] eqn:Ecl; [done|]. rewrite <- Ecl in *.
  assert (Hne : clusters ≠ []) by (by rewrite Ecl). clear Ecl.
  assert (Efail :
    (OM.row_memb o !! row = None ∨
     ∃ slots, OM.row_memb o !! row = Some slots ∧
       match index_of 0 slots with
       | None => True
       | Some i => clusters !! i = None
       end) →
    final (row_change2 scores row clusters o)
    = final (replace_delta_row_member2 row clusters scores o)).
  { intros Hcase. unfold row_change2. destruct clusters as [|c1 cl1]; [done|].
    set (h := replace_delta_row_member2 _ _ _).
    unfold try_except, OM.first_free_slot_for_row; run.
    destruct Hcase as [->|(slots & -> & Hi)]; [done|]. simpl.
    destruct (index_of 0 slots) as [i|]; [|done]. simpl. by rewrite Hi. }
  destruct (OM.row_memb o !! row) as [slots|] eqn:Hf.
  - destruct (index_of 0 slots) as [i|] eqn:Hi.
    + destruct (clusters !! i) as [take|] eqn:Htake.
      * destruct (OM_row_change2_free_slot o row clusters slots i take scores Hf Hi Htake)
          as [Hheld Hfree].
        destruct (decide (take ∈ OM.clusters_of slots)) as [Hin|Hnin].
        -- by rewrite Hheld.
        -- assert (Htk : 0 < take ∧ int_ok take = true).
           { unfold cluster_numbers in Hcl. rewrite list.Forall_forall in Hcl.
             apply Hcl. by eapply list_elem_of_lookup_2. }
           destruct (Hfree Hnin (proj2 Htk)) as (o' & Hadd & -> & _). simpl.
           pose proof (OM_add_row_invariant row take false cfg g j (proj1 Htk) o Ho)
             as Hfinal. by rewrite Hadd in Hfinal.
      * rewrite Efail by (right; exists slots; by rewrite Hi).
        apply OM_replace_delta_row2_invariant; [done| |done].
        intros slots' k Hf' Hk. rewrite Hf in Hf'. injection Hf' as <-.
        apply index_of_Some in Hi as [_ Hfirst]. apply Hfirst.
        apply lookup_ge_None in Htake. lia.
    + rewrite Efail by (right; exists slots; by rewrite Hi).
      apply OM_replace_delta_row2_invariant; [done| |done].
      intros slots' k Hf' Hk Hz. rewrite Hf in Hf'. injection Hf' as <-.
      apply index_of_None in Hi. apply Hi. by eapply list_elem_of_lookup_2.
  - rewrite Efail by (by left).
    apply OM_replace_delta_row2_invariant; [done| |done].
    intros slots' k Hf'. by rewrite Hf in Hf'.
Qed.

Lemma cluster_numbers_sorted l : cluster_numbers l → cluster_numbers (sorted_clusters l).
Proof.
  unfold cluster_numbers, sorted_clusters. intros Hl.
  by rewrite merge_sort_Permutation.
Qed.

Lemma OM_update_for_rows2_invariant order_fast scores draws cfg g j :
  (∀ values n, cluster_numbers (order_fast values n)) →
  preserves (OM_row_invariant cfg g j) (update_for_rows2 order_fast scores draws).
Proof.
  intros Hbest. apply preserves_get. intros o Ho.
  apply preserves_for_each; [|done]. intros [index row].
  unfold update_row2. destruct (seeing_change _ _); [|apply preserves_ret].
  apply preserves_for_each. intros _. apply OM_row_change2_invariant.
  unfold get_best_clusters. apply cluster_numbers_sorted, Hbest.
Qed.

Lemma OM_replace_col_invariant col old new cfg f i :
  0 < old → 0 < new →
  preserves (OM_col_invariant cfg f i) (OM.replace_column_cluster col old new).
Proof.
  intros Hold Hnew o (Hfr & Hc). split.
  - destruct Hfr as (<- & <- & <-). rewrite OM_replace_col_cases. cbv zeta.
    by repeat (case_match; simpl).
  - by apply OM_replace_col_consistent.
Qed.

Lemma OM_replace_delta_col2_invariant col cand scores cfg f i :
  0 < cand →
  preserves (OM_col_invariant cfg f i) (replace_delta_column_member2 col cand scores).
Proof.
  intros Hcand o Ho.
  destruct (OM.col_memb o !! col) as [slots|] eqn:Hg.
  - rewrite (OM_replace_delta_col_eq o col cand scores slots Hg).
    pose proof (deltas_for_head scores col cand (OM.clusters_of slots)) as Hhead.
    destruct (deltas_for _ _ _ _) as [|[d c] rest]; [done|].
    destruct Hhead as (_ & Hin & _). apply elem_of_clusters_of in Hin as [_ Hpos].
    destruct (Qpositive d); [|done].
    apply preserves_bind; [| |done].
    + by apply OM_replace_col_invariant.
    + intros _. apply preserves_ret.
  - unfold replace_delta_column_member2, OM.clusters_for_column; run. by rewrite Hg.
Qed.

Lemma OM_first_free_slot_for_column_final col o :
  final (OM.first_free_slot_for_column col o) = o.
Proof. unfold OM.first_free_slot_for_column; run. by repeat case_match. Qed.

Lemma OM_clusters_for_column_final col o :
  final (OM.clusters_for_column col o) = o.
Proof. unfold OM.clusters_for_column; run. by repeat case_match. Qed.

Lemma OM_col_change2_invariant scores col clusters cfg f i :
  Forall (λ c, 0 < c) clusters →
  preserves (OM_col_invariant cfg f i) (col_change2 scores col clusters).
Proof.
  intros Hcl. destruct clusters as [|c0 rest]; [apply preserves_ret|].
  apply preserves_try.
  - apply preserves_bind.
    + apply preserves_read, OM_first_free_slot_for_column_final.
    + intros free_slot. destruct (_ !! free_slot); [|apply preserves_raise].
      apply preserves_bind.
      * apply preserves_read, OM_clusters_for_column_final.
      * intros held. case_decide; [apply preserves_raise | apply preserves_ret].
  - apply preserves_bind; [|intros; apply preserves_ret].
    apply OM_replace_delta_col2_invariant. by inversion Hcl.
Qed.

Lemma OM_clusters_not_in_column_result col best o :
  match OM.clusters_not_in_column col best o with
  | Returns l o' => o' = o ∧ ∀ c, c ∈ l → c ∈ best
  | Raises _ o' => o' = o
  end.
Proof.
  unfold OM.clusters_not_in_column, OM.clusters_for_column.
  destruct best as [|b best]; [done|]. run.
  destruct (OM.col_memb o !! col); simpl; [|done].
  split; [done|]. intros c Hc. by apply list_elem_of_filter in Hc as [_ Hc].
Qed.

Lemma OM_update_for_cols2_invariant order_fast scores draws cfg f i :
  (∀ values n, cluster_numbers (order_fast values n)) →
  preserves (OM_col_invariant cfg f i) (update_for_cols2 order_fast scores draws).
Proof.
  intros Hbest. apply preserves_get. intros o Ho.
  apply preserves_for_each; [|done]. intros [index col] s Hs.
  unfold bind at 1.
  pose proof (OM_clusters_not_in_column_result col
                (get_best_clusters order_fast scores (OM.num_clusters_per_column o)
                   false col) s) as Hres.
  destruct (OM.clusters_not_in_column _ _ s) as [l s'|e s'];
    [destruct Hres as [-> Hsub]|by subst].
  destruct (seeing_change _ _); [|done].
  apply preserves_for_each; [|done]. intros _.
  apply OM_col_change2_invariant. apply list.Forall_forall. intros c Hc.
  specialize (Hbest (row_values scores col) (OM.num_clusters_per_column o)).
  unfold cluster_numbers in Hbest. rewrite list.Forall_forall in Hbest.
  apply Hsub in Hc. unfold get_best_clusters in Hc. by apply Hbest in Hc as [? _].
Qed.

Lemma OM_init_slots_nonneg rows cols cfg :
  (∀ r slots c, rows !! r = Some slots → c ∈ slots → 0 ≤ c) →
  OM_row_slots_nonneg (OM.init rows cols cfg).
Proof.
  intros Hnn r slots c. simpl. rewrite lookup_fmap.
  destruct (rows !! r) as [l|] eqn:Hl; simpl; [|done].
  intros [= <-]. unfold OM.pad_slots.
  intros [Hin|Hin]%elem_of_app.
  - apply (Hnn r l c Hl). apply elem_of_take in Hin as (k & Hk & _).
    by eapply list_elem_of_lookup_2.
  - apply elem_of_replicate in Hin as [-> _]. lia.
Qed.

(** X8. update_for_rows2 and update_for_cols2 keep the invariants of an
    OrigMembership when the best clusters that util.order_fast yields are
    cluster numbers (positive, in the range of the int arrays): the slot
    arrays and the inverse sets agree after the update as before, whether it
    runs to its end or stops with an exception; the row update leaves every
    slot holding a cluster number or 0 and does not touch the column side,
    the column update does not touch the row side; the configuration is the
    same. *)
Theorem OM_update_keeps_invariants (order_fast : list Q → nat → list Z)
    (scores : DataMatrix Q) (draws : nat → Q) (o : OM.t) :
  (∀ values n, cluster_numbers (order_fast values n)) →
  OM_consistent o → OM_row_slots_nonneg o →
  (let o' := final (update_for_rows2 order_fast scores draws o) in
   OM_consistent o' ∧ OM_row_slots_nonneg o' ∧
   OM.config_params o' = OM.config_params o ∧
   OM.col_memb o' = OM.col_memb o ∧ OM.cluster_cols o' = OM.cluster_cols o) ∧
  (let o' := final (update_for_cols2 order_fast scores draws o) in
   OM_consistent o' ∧ OM_row_slots_nonneg o' ∧
   OM.config_params o' = OM.config_params o ∧
   OM.row_memb o' = OM.row_memb o ∧ OM.cluster_rows o' = OM.cluster_rows o).
Proof.
  intros Hbest [Hr Hc] Hnn. split; cbv zeta.
  - destruct (OM_update_for_rows2_invariant order_fast scores draws
                (OM.config_params o) (OM.col_memb o) (OM.cluster_cols o) Hbest o)
      as ((E1 & E2 & E3) & Hr' & Hnn'); [by split_and!|].
    split_and!; try done. split; [done|].
    eapply OM_cols_consistent_ext; [|exact Hc]. by split.
  - destruct (OM_update_for_cols2_invariant order_fast scores draws
                (OM.config_params o) (OM.row_memb o) (OM.cluster_rows o) Hbest o)
      as ((E1 & E2 & E3) & Hc'); [by split_and!|].
    split_and!; try done.
    + split; [|done]. eapply OM_rows_consistent_ext; [|exact Hr]. by split.
    + intros r slots c. rewrite E2. apply Hnn.
Qed.

Lemma OM_update_keeps_invariants_witness :
  OM_consistent
    (final (update_for_rows2 held_best_order held_best_scores (λ _, 0%Q) held_best_om)) ∧
  OM_consistent
    (final (update_for_cols2 held_best_order held_best_scores (λ _, 0%Q) held_best_om)).
Proof.
  assert (Hbest : ∀ (values : list Q) (n : nat), cluster_numbers (held_best_order values n)).
  { intros values n. repeat constructor. }
  assert (Hnn : OM_row_slots_nonneg held_best_om).
  { apply OM_init_slots_nonneg.
    intros r slots c [_ <-]%lookup_singleton_Some Hc.
    apply list_elem_of_singleton in Hc as ->. lia. }
  destruct (OM_update_keeps_invariants held_best_order held_best_scores (λ _, 0%Q)
              held_best_om Hbest (OM_init_consistent _ _ _) Hnn)
    as [(H1 & _) (H2 & _)].
  by split.
Defined.

(** ** The gate of the updaters *)

Lemma for_each_ext {S A} (l : list A) (f g : A → M S unit) s :
  (∀ x s', f x s' = g x s') → for_each l f s = for_each l g s.
Proof.
  intros Hfg. revert s. induction l as [|x l IH]; intros s; [done|].
  simpl. unfold bind. rewrite Hfg. by destruct (g x s).
Qed.

Lemma for_each_ret {S A} (l : list A) (s : S) :
  for_each l (λ _, ret tt) s = Returns tt s.
Proof. induction l as [|x l IH]; [done|]. simpl. unfold bind. by simpl. Qed.

Lemma seeing_change_certain prob u : (1 <= prob)%Q → seeing_change prob u = true.
Proof.
  intros Hp. unfold seeing_change. apply Qle_bool_iff in Hp. by rewrite Hp.
Qed.

Lemma seeing_change_closed prob u :
  (prob < 1)%Q → (prob < u)%Q → seeing_change prob u = false.
Proof.
  intros Hp Hu. unfold seeing_change. apply orb_false_iff. split.
  - destruct (Qle_bool 1 prob) eqn:E; [|done]. apply Qle_bool_iff in E. lra.
  - destruct (Qle_bool u prob) eqn:E; [|done]. apply Qle_bool_iff in E. lra.
Qed.

(** X9. The gate of the four updaters.  With a change probability of 1 or
    more the random draws are not looked at: any two sequences of draws give
    the same outcome.  With a probability below 1 and every draw above it
    no membership changes; update_for_rows2 then returns without reading
    the store, while the other three updaters still look up the row or
    column before the gate and may stop there. *)
Theorem updater_gate (order_fast : list Q → nat → list Z) (scores : DataMatrix Q)
    (draws draws' : nat → Q) (m : CM.t) (o : OM.t) :
  ((1 <= prob_row_change (CM.config_params m))%Q →
   update_for_rows order_fast scores draws m
   = update_for_rows order_fast scores draws' m) ∧
  ((1 <= prob_col_change (CM.config_params m))%Q →
   update_for_cols order_fast scores draws m
   = update_for_cols order_fast scores draws' m) ∧
  ((1 <= prob_row_change (OM.config_params o))%Q →
   update_for_rows2 order_fast scores draws o
   = update_for_rows2 order_fast scores draws' o) ∧
  ((1 <= prob_col_change (OM.config_params o))%Q →
   update_for_cols2 order_fast scores draws o
   = update_for_cols2 order_fast scores draws' o) ∧
  ((prob_row_change (CM.config_params m) < 1)%Q →
   (∀ k, (prob_row_change (CM.config_params m) < draws k)%Q) →
   final (update_for_rows order_fast scores draws m) = m) ∧
  ((prob_col_change (CM.config_params m) < 1)%Q →
   (∀ k, (prob_col_change (CM.config_params m) < draws k)%Q) →
   final (update_for_cols order_fast scores draws m) = m) ∧
  ((prob_row_change (OM.config_params o) < 1)%Q →
   (∀ k, (prob_row_change (OM.config_params o) < draws k)%Q) →
   update_for_rows2 order_fast scores draws o = Returns tt o) ∧
  ((prob_col_change (OM.config_params o) < 1)%Q →
   (∀ k, (prob_col_change (OM.config_params o) < draws k)%Q) →
   final (update_for_cols2 order_fast scores draws o) = o).
Proof.
  split_and!.
  - intros Hp. unfold update_for_rows; run. apply for_each_ext.
    intros [index row] s. unfold update_row.
    by rewrite !(seeing_change_certain _ _ Hp).
  - intros Hp. unfold update_for_cols; run. apply for_each_ext.
    intros [index col] s. unfold update_col.
    by rewrite !(seeing_change_certain _ _ Hp).
  - intros Hp. unfold update_for_rows2; run. apply for_each_ext.
    intros [index row] s. unfold update_row2.
    by rewrite !(seeing_change_certain _ _ Hp).
  - intros Hp. unfold update_for_cols2; run. apply for_each_ext.
    intros [index col] s.
    by rewrite !(seeing_change_certain _ _ Hp).
  - intros Hp Hd. unfold update_for_rows. unfold bind at 1, get at 1.
    apply (preserves_for_each (λ s, s = m)); [|done].
    intros [index row] s ->. unfold update_row.
    rewrite (seeing_change_closed _ _ Hp (Hd index)). unfold bind.
    pose proof (CM_clusters_not_in_row_final row
      (get_best_clusters order_fast scores (CM.num_clusters_per_row m) false row) m).
    by destruct (CM.clusters_not_in_row _ _ m).
  - intros Hp Hd. unfold update_for_cols. unfold bind at 1, get at 1.
    apply (preserves_for_each (λ s, s = m)); [|done].
    intros [index col] s ->. unfold update_col.
    rewrite (seeing_change_closed _ _ Hp (Hd index)). unfold bind.
    pose proof (CM_clusters_not_in_column_final col
      (get_best_clusters order_fast scores (CM.num_clusters_per_column m) false col) m).
    by destruct (CM.clusters_not_in_column _ _ m).
  - intros Hp Hd. unfold update_for_rows2. unfold bind at 1, get at 1.
    rewrite <- (for_each_ret (imap pair (row_names scores)) o).
    apply for_each_ext. intros [index row] s. unfold update_row2.
    by rewrite (seeing_change_closed _ _ Hp (Hd index)).
  - intros Hp Hd. unfold update_for_cols2. unfold bind at 1, get at 1.
    apply (preserves_for_each (λ s, s = o)); [|done].
    intros [index col] s ->.
    rewrite (seeing_change_closed _ _ Hp (Hd index)). unfold bind.
    pose proof (OM_clusters_not_in_column_result col
      (get_best_clusters order_fast scores (OM.num_clusters_per_column o) false col) o).
    destruct (OM.clusters_not_in_column _ _ o); simpl; [by destruct H|done].
Qed.

Lemma updater_gate_witness :
  update_for_rows held_best_order number_scores (λ _, 0%Q) sample_cm
  = update_for_rows held_best_order number_scores (λ _, 1%Q) sample_cm ∧
  final (update_for_rows held_best_order number_scores (λ _, 1%Q) gated_cm) = gated_cm.
Proof.
  split.
  - apply (updater_gate held_best_order number_scores (λ _, 0%Q) (λ _, 1%Q)
             sample_cm sample_om).
    vm_compute. discriminate.
  - apply (updater_gate held_best_order number_scores (λ _, 1%Q) (λ _, 1%Q)
             gated_cm sample_om).
    + reflexivity.
    + intros k. reflexivity.
Defined.

(** ** Post-adjustment: the row picked by max_row_in_column *)







(** ** Post-adjustment of OrigMembership *)


Lemma length_remove_first y (l : list string) :
  y ∈ l → length l = S (length (remove_first y l)).
Proof.
  induction l as [|z l IH]; simpl; [by intros ?%elem_of_nil|].
  destruct (decide (z = y)) as [->|Hne]; [done|].
  intros [->|Hin]%elem_of_cons; [done|]. simpl. by rewrite <- IH.
Qed.




Section PostAdjustProperties.
Variable quantile : list Q → Q → Q.



End PostAdjustProperties.








Section PostAdjust2Properties.
Variable quantile : list Q → Q → Q.


End PostAdjust2Properties.


(** ** Post-adjustment of ClusterMembership *)










Section PostAdjustCMProperties.
Variable quantile : list Q → Q → Q.



End PostAdjustCMProperties.


Section PostAdjustCMSpec.
Variable quantile : list Q → Q → Q.


End PostAdjustCMSpec.


(* Row g1 holds two clusters where two are allowed; it scores below the only
   member of cluster 2 and is put into that cluster as well. *)
Lemma postadjust_exceeds_capacity :
  CM.num_clusters_per_row crowded_cm = 2%nat ∧
  (λ o, (returned o, CM.num_clusters_for_row (final o) "g1"))
    (postadjust one_sample_quantile crowded_scores (1 # 3) 100 crowded_cm)
  = (Some true, 3%nat).
Proof. split; vm_compute; reflexivity. Qed.

(** ** Constructors and creation from seeds *)

Lemma length_pad_slots num clusters : length (OM.pad_slots num clusters) = num.
Proof.
  unfold OM.pad_slots. rewrite length_app, length_replicate, length_take. lia.
Qed.

(** X15. The constructors establish the invariants the operations rely on,
    for any dictionaries they are given: in ClusterMembership and in
    OrigMembership the inverse maps built by __init__ agree with the forward
    maps, and in OrigMembership every row has exactly clusters_per_row slots
    and every column exactly clusters_per_col, each holding a cluster
    number of the input or 0 where the input has no negative entries. *)
Theorem constructors_establish_invariants (rows cols : gmap string (gset Z))
    (row_lists col_lists : gmap string (list Z)) (cfg : Config) :
  CM_consistent (CM.init rows cols cfg) ∧
  OM_consistent (OM.init row_lists col_lists cfg) ∧
  (∀ r slots, OM.row_memb (OM.init row_lists col_lists cfg) !! r = Some slots →
              length slots = clusters_per_row cfg) ∧
  (∀ c slots, OM.col_memb (OM.init row_lists col_lists cfg) !! c = Some slots →
              length slots = clusters_per_col cfg) ∧
  ((∀ r l c, row_lists !! r = Some l → c ∈ l → 0 ≤ c) →
   OM_row_slots_nonneg (OM.init row_lists col_lists cfg)).
Proof.
  split_and!.
  - apply CM_init_consistent.
  - apply OM_init_consistent.
  - intros r slots. simpl. rewrite lookup_fmap.
    destruct (row_lists !! r); simpl; [|done]. intros [= <-]. apply length_pad_slots.
  - intros c slots. simpl. rewrite lookup_fmap.
    destruct (col_lists !! c); simpl; [|done]. intros [= <-]. apply length_pad_slots.
  - apply OM_init_slots_nonneg.
Qed.

Lemma constructors_establish_invariants_witness :
  OM_row_slots_nonneg (OM.init {[ "g1"%string := [1] ]} {[ "c1"%string := [1] ]}
                         sample_config).
Proof.
  apply (constructors_establish_invariants ∅ ∅ {[ "g1"%string := [1] ]}
           {[ "c1"%string := [1] ]} sample_config).
  intros r l c [_ <-]%lookup_singleton_Some Hc.
  apply list_elem_of_singleton in Hc. subst c. lia.
Defined.





Section CreateProperties.
Variable seed_row_memberships : list (list Z) → list (list Z).
Variable seed_column_memberships : list (list Z) → list (list Z).


End CreateProperties.


(** ** microarray.order *)

Lemma Qltb_spec a b : Qltb a b = true ↔ (a < b)%Q.
Proof. unfold Qltb. rewrite Qlt_alt. by destruct (a ?= b)%Q. Qed.

Lemma Qltb_false a b : Qltb a b = false ↔ (b <= a)%Q.
Proof.
  destruct (Qltb a b) eqn:E.
  - apply Qltb_spec in E. split; [done|]. intros Hle. lra.
  - split; [|done]. intros _. apply Qnot_lt_le. intros Hlt.
    apply Qltb_spec in Hlt. congruence.
Qed.

Lemma elem_of_insert_score_desc x y l :
  y ∈ insert_score_desc x l ↔ y = x ∨ y ∈ l.
Proof.
  induction l as [|z l IH]; simpl.
  - rewrite list_elem_of_singleton. split; [auto|]. intros [?|?%elem_of_nil]; done.
  - destruct (Qltb x z).
    + rewrite !elem_of_cons, IH. tauto.
    + rewrite !elem_of_cons. tauto.
Qed.

Lemma elem_of_sorted_scores_reverse y l : y ∈ sorted_scores_reverse l ↔ y ∈ l.
Proof.
  induction l as [|x l IH]; simpl; [done|].
  rewrite elem_of_insert_score_desc, elem_of_cons, IH. tauto.
Qed.

Lemma length_insert_score_desc x l :
  length (insert_score_desc x l) = S (length l).
Proof.
  induction l as [|z l IH]; simpl; [done|]. destruct (Qltb x z); simpl; by rewrite ?IH.
Qed.

Lemma length_sorted_scores_reverse l : length (sorted_scores_reverse l) = length l.
Proof.
  induction l as [|x l IH]; simpl; [done|]. by rewrite length_insert_score_desc, IH.
Qed.

Lemma sorted_insert_score_desc x l :
  StronglySorted (λ a b, (b <= a)%Q) l →
  StronglySorted (λ a b, (b <= a)%Q) (insert_score_desc x l).
Proof.
  induction l as [|z l IH]; intros Hs; simpl.
  - repeat constructor.
  - apply StronglySorted_inv in Hs as [Hs Hz].
    destruct (Qltb x z) eqn:E.
    + apply Qltb_spec in E. constructor; [by apply IH|].
      apply list.Forall_forall. intros y [->|Hy]%elem_of_insert_score_desc; [lra|].
      rewrite list.Forall_forall in Hz. by apply Hz.
    + apply Qltb_false in E. constructor; [by constructor|].
      apply list.Forall_forall. intros y [->|Hy]%elem_of_cons; [done|].
      rewrite list.Forall_forall in Hz. specialize (Hz y Hy). lra.
Qed.

Lemma sorted_sorted_scores_reverse l :
  StronglySorted (λ a b, (b <= a)%Q) (sorted_scores_reverse l).
Proof.
  induction l as [|x l IH]; simpl; [constructor|]. by apply sorted_insert_score_desc.
Qed.

Lemma distinct_insert_score_desc x l :
  distinct_scores l → (∀ y, y ∈ l → ¬ (x == y)%Q) →
  distinct_scores (insert_score_desc x l).
Proof.
  induction l as [|z l IH]; intros Hd Hx; simpl; [done|].
  destruct Hd as [Hz Hd]. destruct (Qltb x z).
  - simpl. split.
    + intros y [->|Hy]%elem_of_insert_score_desc; [|by apply Hz].
      intros E. apply (Hx z); [left|by symmetry].
    + apply IH; [done|]. intros y Hy. apply Hx. by right.
  - simpl. split; [done|]. by split.
Qed.

Lemma distinct_sorted_scores_reverse l :
  distinct_scores l → distinct_scores (sorted_scores_reverse l).
Proof.
  induction l as [|x l IH]; simpl; [done|]. intros [Hx Hd].
  apply distinct_insert_score_desc; [by apply IH|].
  intros y Hy. apply Hx. by apply elem_of_sorted_scores_reverse.
Qed.

Lemma StronglySorted_lookup {A} (R : A → A → Prop) (l : list A) i j x y :
  StronglySorted R l → (i < j)%nat → l !! i = Some x → l !! j = Some y → R x y.
Proof.
  intros Hs. revert i j. induction Hs as [|a l Hs IH Ha]; intros i j Hij Hi Hj; [done|].
  destruct j as [|j]; [lia|]. destruct i as [|i]; simpl in *.
  - injection Hi as ->. rewrite list.Forall_forall in Ha. apply Ha.
    by eapply list_elem_of_lookup_2.
  - apply (IH i j); [lia|done..].
Qed.

Lemma score_index_Some item alist i :
  score_index item alist = Some i →
  ∃ v, alist !! i = Some v ∧ (v == item)%Q ∧
       ∀ j w, (j < i)%nat → alist !! j = Some w → ¬ (w == item)%Q.
Proof.
  unfold score_index. destruct (list_find _ alist) as [[i' v]|] eqn:E; [|done].
  intros [= <-]. apply list_find_Some in E as (Hl & Hv & Hfirst).
  exists v. split_and!; [done|by apply Qeq_bool_iff|].
  intros j w Hj Hw Heq. apply (Hfirst j w Hw Hj). by apply Qeq_bool_iff.
Qed.

Lemma score_index_is_Some item alist :
  item ∈ alist → is_Some (score_index item alist).
Proof.
  intros Hin. unfold score_index.
  destruct (list_find (λ y, Qeq_bool y item = true) alist) as [[i v]|] eqn:E;
    [by eexists|].
  apply list_find_None in E. rewrite list.Forall_forall in E.
  destruct (E item Hin). apply Qeq_bool_iff. reflexivity.
Qed.

Lemma order_items_spec alist items :
  (∀ item, item ∈ items → item ∈ alist) →
  ∃ ranks, order_items alist items = inr ranks ∧
           Forall2 (λ item p, ∃ i, p = Z.of_nat i + 1 ∧ score_index item alist = Some i)
                   items ranks.
Proof.
  induction items as [|item rest IH]; intros Hin; simpl.
  - exists []. split; [done|constructor].
  - destruct (score_index_is_Some item alist) as [i Hi]; [apply Hin; left|].
    destruct IH as (ranks & E & Hall); [intros x Hx; apply Hin; by right|].
    rewrite Hi, E. eexists. split; [done|]. constructor; [by exists i|done].
Qed.

(** X17. microarray.order never fails: it returns as many ranks as there
    are scores, each rank a 1-based position of the list; the scores found
    at the ranks, in the order of the result, are descending; every rank is
    the first position holding its score.  So when no two scores are equal
    the ranks are pairwise different (a permutation of 1..n), and when two
    positions hold equal scores the later position is never returned. *)
Theorem order_spec (alist : list Q) :
  ∃ ranks,
    order alist = inr ranks ∧ length ranks = length alist ∧
    (∀ k p, ranks !! k = Some p →
       1 ≤ p ≤ Z.of_nat (length alist) ∧
       ∃ v, alist !! Z.to_nat (p - 1) = Some v ∧
            ∀ j w, (j < Z.to_nat (p - 1))%nat → alist !! j = Some w → ¬ (w == v)%Q) ∧
    (∀ k k' p p' v v',
       (k ≤ k')%nat → ranks !! k = Some p → ranks !! k' = Some p' →
       alist !! Z.to_nat (p - 1) = Some v → alist !! Z.to_nat (p' - 1) = Some v' →
       (v' <= v)%Q) ∧
    (distinct_scores alist → NoDup ranks) ∧
    (∀ i j v w, (i < j)%nat → alist !! i = Some v → alist !! j = Some w →
                (v == w)%Q → Z.of_nat j + 1 ∉ ranks).
Proof.
  destruct (order_items_spec alist (sorted_scores_reverse alist))
    as (ranks & E & Hall).
  { intros item. by rewrite elem_of_sorted_scores_reverse. }
  assert (Hrank : ∀ k p, ranks !! k = Some p →
            ∃ item i v, sorted_scores_reverse alist !! k = Some item ∧
              p = Z.of_nat i + 1 ∧ alist !! i = Some v ∧ (v == item)%Q ∧
              ∀ j w, (j < i)%nat → alist !! j = Some w → ¬ (w == item)%Q).
  { intros k p Hk.
    pose proof Hk as Hk2. eapply Forall2_lookup_r in Hk2; [|exact Hall].
    destruct Hk2 as (item & Hitem & i & -> & Hi).
    destruct (score_index_Some _ _ _ Hi) as (v & Hv & Hveq & Hfirst).
    by exists item, i, v. }
  exists ranks. split; [done|]. split_and!.
  - rewrite <- (Forall2_length Hall). apply length_sorted_scores_reverse.
  - intros k p Hk. destruct (Hrank k p Hk) as (item & i & v & _ & -> & Hv & Hveq & Hfirst).
    replace (Z.to_nat (Z.of_nat i + 1 - 1)) with i by lia.
    split; [apply lookup_lt_Some in Hv; lia|].
    exists v. split; [done|]. intros j w Hj Hw Heq. apply (Hfirst j w Hj Hw).
    by rewrite Heq.
  - intros k k' p p' v v' Hkk Hk Hk' Hv Hv'.
    destruct (Hrank k p Hk) as (item & i & u & Hitem & -> & Hu & Hueq & _).
    destruct (Hrank k' p' Hk') as (item' & i' & u' & Hitem' & -> & Hu' & Hueq' & _).
    replace (Z.to_nat (Z.of_nat i + 1 - 1)) with i in Hv by lia.
    replace (Z.to_nat (Z.of_nat i' + 1 - 1)) with i' in Hv' by lia.
    simplify_eq. rewrite Hueq, Hueq'.
    destruct (decide (k = k')) as [->|Hne]; [simplify_eq; apply Qle_refl|].
    pose proof (sorted_sorted_scores_reverse alist) as Hs.
    apply (StronglySorted_lookup (λ a b, (b <= a)%Q) (sorted_scores_reverse alist)
             k k' item item' Hs); [lia|done..].
  - intros Hd. apply distinct_sorted_scores_reverse in Hd.
    clear E Hrank. revert Hd Hall. generalize (sorted_scores_reverse alist).
    intros items Hd Hall. revert Hd.
    induction Hall as [|item p items ranks (i & -> & Hi) Hall IH]; intros Hd;
      [constructor|].
    destruct Hd as [Hitem Hd]. constructor; [|by apply IH].
    intros Hin. apply list_elem_of_lookup_1 in Hin as [k Hk].
    pose proof Hk as Hk2. eapply Forall2_lookup_r in Hk2; [|exact Hall].
    destruct Hk2 as (item' & Hitem' & i' & Hp & Hi').
    assert (i' = i) as -> by lia.
    destruct (score_index_Some _ _ _ Hi) as (v & Hv & Hveq & _).
    destruct (score_index_Some _ _ _ Hi') as (v' & Hv' & Hveq' & _).
    simplify_eq. apply (Hitem item'); [by eapply list_elem_of_lookup_2|].
    by rewrite <- Hveq, Hveq'.
  - intros i j v w Hij Hv Hw Heq Hin.
    apply list_elem_of_lookup_1 in Hin as [k Hk].
    destruct (Hrank k _ Hk) as (item & j' & u & _ & Hp & Hu & Hueq & Hfirst).
    assert (j' = j) as -> by lia. simplify_eq.
    apply (Hfirst i v Hij Hv). by rewrite Heq.
Qed.

Lemma order_spec_witness :
  ∃ ranks, order [3; 1; 2]%Q = inr ranks ∧ NoDup ranks.
Proof.
  destruct (order_spec [3; 1; 2]%Q) as (ranks & E & _ & _ & _ & Hnd & _).
  exists ranks. split; [exact E|]. apply Hnd. simpl. split_and!; try done.
  - intros y Hy E'. apply elem_of_cons in Hy as [->|Hy]; [by vm_compute in E'|].
    apply list_elem_of_singleton in Hy. subst y. by vm_compute in E'.
  - intros y Hy E'. apply list_elem_of_singleton in Hy. subst y. by vm_compute in E'.
  - intros y Hy. by apply elem_of_nil in Hy.
Defined.

(* With a tie the first position is returned twice and the second never. *)
Lemma order_with_tie : order [5; 5; 7]%Q = inr [3; 1; 1].
Proof. vm_compute. reflexivity. Qed.
